(** * Search-space blocks of [zeus.modules.blocks], the quantization shim
      and the [xt] package body

    A shallow embedding of

    - [zeus/modules/blocks/blocks.py]: the nine block classes, each one a
      constructor that assembles framework layers, together with the
      [@ClassFactory.register(ClassType.SEARCH_SPACE)] decorators executed
      when the module is imported;
    - [zeus/modules/operators/quant/__init__.py]: the backend-selecting
      import;
    - [xt/__init__.py]: the body of the [xt] package, run against the
      import system and the code it calls.

    Constructors run in an exception monad.  Integers are Python integers
    ([Z]); the one floating-point expression of the file,
    [int(outchannel * (base_width / 64.))], is evaluated in IEEE-754
    binary64 through [SpecFloat]. *)

From Stdlib Require Import ZArith Bool List String Lia.
From Stdlib Require Import Floats.SpecFloat.
From stdpp Require Import base option gmap strings list.

Local Open Scope Z_scope.

(* ===================================================================== *)
(** * Data: classes, layers, modules                                      *)
(* ===================================================================== *)

(** The classes defined by [blocks.py], in source order. *)
Inductive BlockClass :=
| class_ShortCut
| class_BottleConv
| class_BasicConv
| class_SmallInputInitialBlock
| class_InitialBlock
| class_BasicBlock
| class_BottleneckBlock
| class_PruneBasicBlock
| class_PruneBasicConv.

Definition __name__ (c : BlockClass) : string :=
  match c with
  | class_ShortCut => "ShortCut"
  | class_BottleConv => "BottleConv"
  | class_BasicConv => "BasicConv"
  | class_SmallInputInitialBlock => "SmallInputInitialBlock"
  | class_InitialBlock => "InitialBlock"
  | class_BasicBlock => "BasicBlock"
  | class_BottleneckBlock => "BottleneckBlock"
  | class_PruneBasicBlock => "PruneBasicBlock"
  | class_PruneBasicConv => "PruneBasicConv"
  end.

(** Every class of the file, in the order the [class] statements run. *)
Definition defined_classes : list BlockClass :=
  [ class_ShortCut; class_BottleConv; class_BasicConv;
    class_SmallInputInitialBlock; class_InitialBlock; class_BasicBlock;
    class_BottleneckBlock; class_PruneBasicBlock; class_PruneBasicConv ].

(** The keyword arguments of an [ops.Conv2d(...)] call.  Every call of
    [blocks.py] passes [in_channels], [out_channels], [kernel_size] and
    [bias]; [stride], [padding] and [groups] are [None] where the call
    leaves them to the operator's default. *)
Record Conv2dKw := {
  in_channels : Z;
  out_channels : Z;
  kernel_size : Z;
  stride : option Z;
  padding : option Z;
  groups : option Z;
  bias : bool
}.

#[local] Set Warnings "-register-all".

(** Modelled from the spec: [Module], [Add] and [ops] are imported from
    [zeus.modules.module], [zeus.modules.connections] and
    [zeus.modules.operators] and are not part of the visible fragment.  The
    spec calls them "the dynamic module-composition pattern" delegated to
    "an external tensor-computation framework"; a module is therefore
    recorded as the tree of calls that built it: an operator with the
    arguments it was given, an [Add] with the models it combines, or an
    instance of a block class with its attributes in assignment order. *)
Inductive module :=
| LConv2d (kw : Conv2dKw)
| LBatchNorm2d (num_features : Z)
| LRelu (inplace : option bool)
| LMaxPool2d (pool_kernel pool_stride pool_padding : Z)
| LAdd (models : list module)
| LBlock (cls : BlockClass) (attrs : list (string * module)).

(** [self.name = value]: rebinding an attribute keeps its position, a new
    attribute goes last. *)
Fixpoint assign (attrs : list (string * module)) (name : string) (v : module)
  : list (string * module) :=
  match attrs with
  | [] => [(name, v)]
  | (k, old) :: rest =>
      if String.eqb k name then (k, v) :: rest
      else (k, old) :: assign rest name v
  end.

Definition setattr (self : module) (name : string) (v : module) : module :=
  match self with
  | LBlock c attrs => LBlock c (assign attrs name v)
  | other => other
  end.

Definition children (m : module) : list module :=
  match m with
  | LBlock _ attrs => map snd attrs
  | LAdd ms => ms
  | _ => []
  end.

(* ===================================================================== *)
(** * Python: exceptions and the float expression                         *)
(* ===================================================================== *)

Module Py.

(** [OverflowError] and [ValueError] are raised by Python's own
    arithmetic; [FrameworkError] stands for whatever a call into the
    framework raises and carries the call that was rejected;
    [ImportError] stands for whatever the import system raises on the
    named target. *)
Inductive exn :=
| OverflowError (msg : string)
| ValueError (msg : string)
| FrameworkError (rejected : module)
| ImportError (target : string).

Inductive result (A : Type) :=
| Ok (a : A)
| Raise (e : exn).
Arguments Ok {A} a.
Arguments Raise {A} e.

#[global] Instance result_ret : MRet result := fun A a => Ok a.
#[global] Instance result_bind : MBind result :=
  fun A B f r => match r with Ok a => f a | Raise e => Raise e end.
#[global] Instance result_fmap : FMap result :=
  fun A B f r => match r with Ok a => Ok (f a) | Raise e => Raise e end.

(** ** binary64 *)

Definition prec : Z := 53.
Definition emax : Z := 1024.

(** [float(n)] for an integer [n]: correctly rounded (ties to even);
    [PyLong_AsDouble] raises when the result is out of range. *)
Definition float_of_int (n : Z) : result spec_float :=
  match binary_normalize prec emax n 0 false with
  | S754_infinity _ => Raise (OverflowError "int too large to convert to float")
  | f => Ok f
  end.

(** The literal [64.]. *)
Definition float_64 : spec_float := S754_finite false 4503599627370496 (-46).

(** [n / y] for an integer [n] and a non-zero float [y]. *)
Definition int_truediv_float (n : Z) (y : spec_float) : result spec_float :=
  x ← float_of_int n; mret (SFdiv prec emax x y).

(** [n * y] for an integer [n] and a float [y]; a float product that
    overflows is an infinity, not an exception. *)
Definition int_mul_float (n : Z) (y : spec_float) : result spec_float :=
  x ← float_of_int n; mret (SFmul prec emax x y).

(** [int(x)] for a float [x]: truncation toward zero. *)
Definition int_of_float (x : spec_float) : result Z :=
  match x with
  | S754_zero _ => Ok 0
  | S754_infinity _ =>
      Raise (OverflowError "cannot convert float infinity to integer")
  | S754_nan => Raise (ValueError "cannot convert float NaN to integer")
  | S754_finite s m e =>
      let mag := if 0 <=? e then Z.pos m * 2 ^ e else Z.pos m / 2 ^ (- e) in
      Ok (if s then - mag else mag)
  end.

End Py.
Import Py.

(* ===================================================================== *)
(** * Calls into the framework                                            *)
(* ===================================================================== *)

(** A framework decides which calls it accepts; a rejected call raises
    inside the framework. *)
Definition Framework := module -> bool.

(** The framework that accepts every call. *)
Definition permissive : Framework := fun _ => true.

Definition external (fw : Framework) (m : module) : result module :=
  if fw m then Ok m else Raise (FrameworkError m).

(** [super(C, self).__init__()]: a fresh instance of [C] without
    attributes. *)
Definition Module_init (fw : Framework) (c : BlockClass) : result module :=
  external fw (LBlock c []).

(** [Add(m1, m2)] of [zeus.modules.connections]. *)
Definition Add (fw : Framework) (m1 m2 : module) : result module :=
  external fw (LAdd [m1; m2]).

Module ops.

Definition Conv2d (fw : Framework) (kw : Conv2dKw) : result module :=
  external fw (LConv2d kw).

Definition BatchNorm2d (fw : Framework) (num_features : Z) : result module :=
  external fw (LBatchNorm2d num_features).

Definition Relu (fw : Framework) (inplace : option bool) : result module :=
  external fw (LRelu inplace).

Definition MaxPool2d (fw : Framework) (kernel_size stride padding : Z)
  : result module :=
  external fw (LMaxPool2d kernel_size stride padding).

End ops.

(* ===================================================================== *)
(** * [blocks.py]: the block constructors                                 *)
(* ===================================================================== *)

(** Each definition is the [__init__] of the class of the same name; the
    arguments that have a default in the source ([stride=1], [groups=1],
    [base_width=64]) are explicit here. *)
Module blocks.

Definition ShortCut (fw : Framework) (inchannel outchannel expansion stride : Z)
  : result module :=
  self ← Module_init fw class_ShortCut;
  if negb (stride =? 1) || negb (inchannel =? outchannel * expansion) then
    conv1 ← ops.Conv2d fw
      {| in_channels := inchannel; out_channels := outchannel * expansion;
         kernel_size := 1; stride := Some stride; padding := None;
         groups := None; bias := false |};
    let self := setattr self "conv1" conv1 in
    batch ← ops.BatchNorm2d fw (outchannel * expansion);
    mret (setattr self "batch" batch)
  else mret self.

(** [int(outchannel * (base_width / 64.)) * groups], the value line 58
    rebinds [outchannel] to. *)
Definition bottle_width (outchannel groups base_width : Z) : result Z :=
  q ← int_truediv_float base_width float_64;
  p ← int_mul_float outchannel q;
  n ← int_of_float p;
  mret (n * groups).

Definition BottleConv (fw : Framework)
  (inchannel outchannel expansion groups base_width stride : Z)
  : result module :=
  self ← Module_init fw class_BottleConv;
  outchannel ← bottle_width outchannel groups base_width;
  conv1 ← ops.Conv2d fw
    {| in_channels := inchannel; out_channels := outchannel;
       kernel_size := 1; stride := Some 1; padding := None;
       groups := None; bias := false |};
  let self := setattr self "conv1" conv1 in
  batch1 ← ops.BatchNorm2d fw outchannel;
  let self := setattr self "batch1" batch1 in
  conv2 ← ops.Conv2d fw
    {| in_channels := outchannel; out_channels := outchannel;
       kernel_size := 3; stride := Some stride; padding := Some 1;
       groups := Some groups; bias := false |};
  let self := setattr self "conv2" conv2 in
  batch2 ← ops.BatchNorm2d fw outchannel;
  let self := setattr self "batch2" batch2 in
  conv3 ← ops.Conv2d fw
    {| in_channels := outchannel; out_channels := outchannel * expansion;
       kernel_size := 1; stride := Some 1; padding := None;
       groups := None; bias := false |};
  let self := setattr self "conv3" conv3 in
  batch3 ← ops.BatchNorm2d fw (outchannel * expansion);
  let self := setattr self "batch3" batch3 in
  relu ← ops.Relu fw None;
  mret (setattr self "relu" relu).

(** [base_width] is accepted and not used. *)
Definition BasicConv (fw : Framework)
  (inchannel outchannel groups base_width stride : Z) : result module :=
  self ← Module_init fw class_BasicConv;
  conv ← ops.Conv2d fw
    {| in_channels := inchannel; out_channels := outchannel;
       kernel_size := 3; stride := Some stride; padding := Some 1;
       groups := Some groups; bias := false |};
  let self := setattr self "conv" conv in
  batch ← ops.BatchNorm2d fw outchannel;
  let self := setattr self "batch" batch in
  relu ← ops.Relu fw (Some true);
  let self := setattr self "relu" relu in
  conv2 ← ops.Conv2d fw
    {| in_channels := outchannel; out_channels := outchannel;
       kernel_size := 3; stride := None; padding := Some 1;
       groups := Some groups; bias := false |};
  let self := setattr self "conv2" conv2 in
  batch2 ← ops.BatchNorm2d fw outchannel;
  mret (setattr self "batch2" batch2).

Definition SmallInputInitialBlock (fw : Framework) (init_plane : Z)
  : result module :=
  self ← Module_init fw class_SmallInputInitialBlock;
  conv ← ops.Conv2d fw
    {| in_channels := 3; out_channels := init_plane;
       kernel_size := 3; stride := Some 1; padding := Some 1;
       groups := None; bias := false |};
  let self := setattr self "conv" conv in
  bn ← ops.BatchNorm2d fw init_plane;
  let self := setattr self "bn" bn in
  relu ← ops.Relu fw None;
  mret (setattr self "relu" relu).

Definition InitialBlock (fw : Framework) (init_plane : Z) : result module :=
  self ← Module_init fw class_InitialBlock;
  conv ← ops.Conv2d fw
    {| in_channels := 3; out_channels := init_plane;
       kernel_size := 7; stride := Some 2; padding := Some 3;
       groups := None; bias := false |};
  let self := setattr self "conv" conv in
  batch ← ops.BatchNorm2d fw init_plane;
  let self := setattr self "batch" batch in
  maxpool2d ← ops.MaxPool2d fw 3 2 1;
  mret (setattr self "maxpool2d" maxpool2d).

(** The class attribute [expansion] of the three residual blocks. *)
Definition BasicBlock_expansion : Z := 1.
Definition BottleneckBlock_expansion : Z := 4.
Definition PruneBasicBlock_expansion : Z := 1.

Definition BasicBlock (fw : Framework)
  (inchannel outchannel groups base_width stride : Z) : result module :=
  self ← Module_init fw class_BasicBlock;
  base_conv ← BasicConv fw inchannel outchannel groups base_width stride;
  shortcut ← ShortCut fw inchannel outchannel BasicBlock_expansion stride;
  block ← Add fw base_conv shortcut;
  let self := setattr self "block" block in
  relu ← ops.Relu fw None;
  mret (setattr self "relu" relu).

Definition BottleneckBlock (fw : Framework)
  (inchannel outchannel groups base_width stride : Z) : result module :=
  self ← Module_init fw class_BottleneckBlock;
  bottle_conv ← BottleConv fw inchannel outchannel BottleneckBlock_expansion
                  groups base_width stride;
  shortcut ← ShortCut fw inchannel outchannel BottleneckBlock_expansion stride;
  block ← Add fw bottle_conv shortcut;
  let self := setattr self "block" block in
  relu ← ops.Relu fw None;
  mret (setattr self "relu" relu).

(** Defined after [PruneBasicBlock] in the source, which only looks the
    name up when a block is built. *)
Definition PruneBasicConv (fw : Framework)
  (in_planes planes inner_plane stride : Z) : result module :=
  self ← Module_init fw class_PruneBasicConv;
  conv1 ← ops.Conv2d fw
    {| in_channels := in_planes; out_channels := inner_plane;
       kernel_size := 3; stride := Some stride; padding := Some 1;
       groups := None; bias := false |};
  let self := setattr self "conv1" conv1 in
  bn1 ← ops.BatchNorm2d fw inner_plane;
  let self := setattr self "bn1" bn1 in
  relu ← ops.Relu fw None;
  let self := setattr self "relu" relu in
  conv2 ← ops.Conv2d fw
    {| in_channels := inner_plane; out_channels := planes;
       kernel_size := 3; stride := Some 1; padding := Some 1;
       groups := None; bias := false |};
  let self := setattr self "conv2" conv2 in
  bn2 ← ops.BatchNorm2d fw planes;
  let self := setattr self "bn2" bn2 in
  relu2 ← ops.Relu fw None;
  mret (setattr self "relu2" relu2).

Definition PruneBasicBlock (fw : Framework)
  (inchannel outchannel innerchannel stride : Z) : result module :=
  self ← Module_init fw class_PruneBasicBlock;
  conv_block ← PruneBasicConv fw inchannel outchannel innerchannel stride;
  shortcut ← ShortCut fw inchannel outchannel PruneBasicBlock_expansion stride;
  block ← Add fw conv_block shortcut;
  let self := setattr self "block" block in
  relu3 ← ops.Relu fw None;
  mret (setattr self "relu3" relu3).

(** A constructor call: a class of the file with its arguments. *)
Inductive Call :=
| new_ShortCut (inchannel outchannel expansion stride : Z)
| new_BottleConv (inchannel outchannel expansion groups base_width stride : Z)
| new_BasicConv (inchannel outchannel groups base_width stride : Z)
| new_SmallInputInitialBlock (init_plane : Z)
| new_InitialBlock (init_plane : Z)
| new_BasicBlock (inchannel outchannel groups base_width stride : Z)
| new_BottleneckBlock (inchannel outchannel groups base_width stride : Z)
| new_PruneBasicBlock (inchannel outchannel innerchannel stride : Z)
| new_PruneBasicConv (in_planes planes inner_plane stride : Z).

Definition class_of (c : Call) : BlockClass :=
  match c with
  | new_ShortCut _ _ _ _ => class_ShortCut
  | new_BottleConv _ _ _ _ _ _ => class_BottleConv
  | new_BasicConv _ _ _ _ _ => class_BasicConv
  | new_SmallInputInitialBlock _ => class_SmallInputInitialBlock
  | new_InitialBlock _ => class_InitialBlock
  | new_BasicBlock _ _ _ _ _ => class_BasicBlock
  | new_BottleneckBlock _ _ _ _ _ => class_BottleneckBlock
  | new_PruneBasicBlock _ _ _ _ => class_PruneBasicBlock
  | new_PruneBasicConv _ _ _ _ => class_PruneBasicConv
  end.

Definition construct (fw : Framework) (c : Call) : result module :=
  match c with
  | new_ShortCut i o e s => ShortCut fw i o e s
  | new_BottleConv i o e g b s => BottleConv fw i o e g b s
  | new_BasicConv i o g b s => BasicConv fw i o g b s
  | new_SmallInputInitialBlock p => SmallInputInitialBlock fw p
  | new_InitialBlock p => InitialBlock fw p
  | new_BasicBlock i o g b s => BasicBlock fw i o g b s
  | new_BottleneckBlock i o g b s => BottleneckBlock fw i o g b s
  | new_PruneBasicBlock i o n s => PruneBasicBlock fw i o n s
  | new_PruneBasicConv i o n s => PruneBasicConv fw i o n s
  end.

End blocks.
Import blocks.

(* ===================================================================== *)
(** * Observations on a built module                                      *)
(* ===================================================================== *)

(** Modelled from the spec: how a module runs belongs to [Module] and [Add],
    which are outside the visible fragment.  The channel count a module
    produces on an input of [c] channels is taken layer by layer: a block
    feeds its attributes one into the next in assignment order (a block
    without attributes hands its input through), a convolution turns
    [in_channels] into [out_channels], a batch norm keeps its
    [num_features], activation and pooling keep the count, and [Add] sums
    what its models produce on the same input.  [None] is a shape mismatch:
    a layer fed a count it was not built for, or an [Add] whose models
    disagree. *)
Fixpoint channels (m : module) (c : Z) : option Z :=
  match m with
  | LConv2d kw => if c =? in_channels kw then Some (out_channels kw) else None
  | LBatchNorm2d n => if c =? n then Some c else None
  | LRelu _ => Some c
  | LMaxPool2d _ _ _ => Some c
  | LAdd ms =>
      (fix sum (l : list module) : option Z :=
         match l with
         | [] => None
         | b :: rest =>
             match channels b c with
             | None => None
             | Some k =>
                 match rest with
                 | [] => Some k
                 | _ :: _ =>
                     match sum rest with
                     | Some k' => if k =? k' then Some k else None
                     | None => None
                     end
                 end
             end
         end) ms
  | LBlock _ attrs =>
      (fix seq (l : list (string * module)) (c : Z) : option Z :=
         match l with
         | [] => Some c
         | (_, layer) :: rest =>
             match channels layer c with
             | Some c' => seq rest c'
             | None => None
             end
         end) attrs c
  end.

(** What each model of an [Add] produces on an input of [c] channels. *)
Definition branch_channels (m : module) (c : Z) : list (option Z) :=
  match m with
  | LAdd ms => map (fun b => channels b c) ms
  | _ => []
  end.

Definition getattr (m : module) (name : string) : option module :=
  match m with
  | LBlock _ attrs => snd <$> List.find (fun kv => String.eqb (fst kv) name) attrs
  | _ => None
  end.

(** A batch norm is well placed after [prev] when [prev] is a convolution
    whose [out_channels] is the norm's [num_features]; any other layer is
    well placed anywhere. *)
Definition norm_matches (prev : option module) (m : module) : bool :=
  match m with
  | LBatchNorm2d n =>
      match prev with
      | Some (LConv2d kw) => out_channels kw =? n
      | _ => false
      end
  | _ => true
  end.

(** Every batch norm anywhere below [m] is well placed in the layer
    sequence of the constructor that created it. *)
Fixpoint norms_match (m : module) : bool :=
  match m with
  | LBlock _ attrs =>
      (fix go (prev : option module) (l : list (string * module)) : bool :=
         match l with
         | [] => true
         | (_, layer) :: rest =>
             norm_matches prev layer && norms_match layer && go (Some layer) rest
         end) None attrs
  | LAdd ms =>
      (fix go (l : list module) : bool :=
         match l with
         | [] => true
         | b :: rest => norm_matches None b && norms_match b && go rest
         end) ms
  | _ => true
  end.

(** Output height (or width) of a sliding window of size [k], stride [s]
    and padding [p] over an input of size [h], by the rule of the PyTorch
    operators; a stride or padding the call leaves out counts as 1 or 0. *)
Definition window_out (h k s p : Z) : Z := (h + 2 * p - k) / s + 1.

Definition layer_spatial (m : module) (h : Z) : Z :=
  match m with
  | LConv2d kw =>
      window_out h (kernel_size kw) (default 1 (stride kw)) (default 0 (padding kw))
  | LMaxPool2d k s p => window_out h k s p
  | _ => h
  end.

(** Spatial size after the layers of a block made of operators only. *)
Definition spatial (m : module) (h : Z) : Z :=
  fold_left (fun h layer => layer_spatial layer h) (children m) h.

Definition is_pool (m : module) : bool :=
  match m with LMaxPool2d _ _ _ => true | _ => false end.

(* ===================================================================== *)
(** * [quant/__init__.py]: the backend shim                               *)
(* ===================================================================== *)

Module quant.

(** The statements of the package's [__init__] that touch the import
    system. *)
Inductive Import :=
| from_import (package name : string)
| from_import_star (submodule : string).

Definition tensorflow_quant : Import := from_import_star ".tensorflow_quant".
Definition pytroch_quant : Import := from_import_star ".pytroch_quant".

Definition target (i : Import) : string :=
  match i with
  | from_import package _ => package
  | from_import_star submodule => submodule
  end.

(** The import system decides which targets it can load. *)
Definition Importer := string -> bool.

Definition finds_all : Importer := fun _ => true.

Definition run_import (imp : Importer) (i : Import) : result Import :=
  if imp (target i) then Ok i else Raise (ImportError (target i)).

(** Running the package body.  [is_tf_backend] is the function imported at
    line 1: calling it at line 3 returns a truth value or raises whatever
    the callee raises.  The result lists the imports performed, in
    order. *)
Definition __init__ (imp : Importer) (is_tf_backend : unit -> result bool)
  : result (list Import) :=
  zeus ← run_import imp (from_import "zeus" "is_tf_backend");
  is_tf_backend tt ≫= fun tf : bool =>
  if tf then
    star ← run_import imp tensorflow_quant; mret [zeus; star]
  else
    star ← run_import imp pytroch_quant; mret [zeus; star].

Definition star_imports (l : list Import) : list Import :=
  List.filter (fun i => match i with from_import_star _ => true | _ => false end) l.

End quant.

(* ===================================================================== *)
(** * [ClassFactory]: the registry                                        *)
(* ===================================================================== *)

Module ClassFactory.

(** Modelled from the spec: [ClassType] is imported from [zeus.common];
    [blocks.py] uses its member [SEARCH_SPACE] only. *)
Inductive ClassType :=
| SEARCH_SPACE
| OTHER (type_name : string).

#[global] Instance ClassType_eq_dec : EqDecision ClassType.
Proof. solve_decision. Defined.

#[global] Instance ClassType_countable : Countable ClassType.
Proof.
  refine (inj_countable'
            (fun t => match t with SEARCH_SPACE => None | OTHER n => Some n end)
            (fun o => match o with None => SEARCH_SPACE | Some n => OTHER n end) _).
  intros []; reflexivity.
Defined.

(** A registered class: one of this file or one registered elsewhere. *)
Inductive Class :=
| block_class (c : BlockClass)
| foreign_class (qualname : string).

Abbreviation Registry := (gmap (ClassType * string) Class).

(** Modelled from the spec: [ClassFactory] is imported from [zeus.common]
    and is not part of the visible fragment.  The spec describes a
    "class-registration/factory mechanism" into which blocks are
    "registered" through "the registration decorator pattern":
    [register(t)] applied to a class files it under [t] and its
    [__name__], and the factory resolves a type and a name to the class
    filed there. *)
Definition register (t : ClassType) (c : BlockClass) (r : Registry) : Registry :=
  <[(t, __name__ c) := block_class c]> r.

Definition get_cls (t : ClassType) (name : string) (r : Registry) : option Class :=
  r !! (t, name).

Definition is_exists (t : ClassType) (name : string) (r : Registry) : bool :=
  bool_decide (is_Some (r !! (t, name))).

End ClassFactory.
Import ClassFactory.

(** The decorators of [blocks.py] with the class each one decorates, in
    source order. *)
Definition decorators : list (ClassType * BlockClass) :=
  [ (SEARCH_SPACE, class_ShortCut);
    (SEARCH_SPACE, class_BottleConv);
    (SEARCH_SPACE, class_BasicConv);
    (SEARCH_SPACE, class_SmallInputInitialBlock);
    (SEARCH_SPACE, class_InitialBlock);
    (SEARCH_SPACE, class_BasicBlock);
    (SEARCH_SPACE, class_BottleneckBlock);
    (SEARCH_SPACE, class_PruneBasicBlock);
    (SEARCH_SPACE, class_PruneBasicConv) ].

(** [import zeus.modules.blocks.blocks]: the class statements run top to
    bottom and each decorator files its class. *)
Definition import_blocks (r : Registry) : Registry :=
  fold_left (fun r d => register (fst d) (snd d) r) decorators r.

(* ===================================================================== *)
(** * Running a constructor                                               *)
(* ===================================================================== *)

(** The arguments of the width expression, for the two classes that
    evaluate it. *)
Definition width_request (c : Call) : option (Z * Z * Z) :=
  match c with
  | new_BottleConv _ o _ g b _ => Some (o, g, b)
  | new_BottleneckBlock _ o g b _ => Some (o, g, b)
  | _ => None
  end.

(** [agree r rp]: the run [r] under some framework ends as the run [rp]
    under the permissive framework does, unless the framework rejected a
    call. *)
Definition agree {A : Type} (r rp : result A) : Prop :=
  r = rp \/ exists x, r = Raise (FrameworkError x).

(** The projection of a shortcut: a 1x1 convolution from [inchannel] to
    [outchannel * expansion] with the given stride, then a batch norm over
    [outchannel * expansion] features. *)
Definition projection (inchannel outchannel expansion stride : Z)
  : list (string * module) :=
  [ ("conv1", LConv2d {| in_channels := inchannel;
                         out_channels := outchannel * expansion;
                         kernel_size := 1; stride := Some stride;
                         padding := None; groups := None; bias := false |});
    ("batch", LBatchNorm2d (outchannel * expansion)) ].

(** The condition line 35 tests. *)
Definition needs_projection (inchannel outchannel expansion stride : Z) : bool :=
  negb (stride =? 1) || negb (inchannel =? outchannel * expansion).

(** The float [1.0], which [64 / 64.] evaluates to. *)
Definition float_1 : spec_float := S754_finite false 4503599627370496 (-52).

(** What conversion and the division by [64.] produce: a zero, or a 53-bit
    mantissa with an exponent between [lo] and [hi]. *)
Definition normal_in (lo hi : Z) (f : spec_float) : Prop :=
  match f with
  | S754_zero _ => True
  | S754_finite _ m e => Z.pos (digits2_pos m) = 53 /\ lo <= e <= hi
  | _ => False
  end.

(** The three classes whose [block] attribute is an [Add] of a convolution
    path and a [ShortCut]. *)
Definition is_residual (c : Call) : bool :=
  match c with
  | new_BasicBlock _ _ _ _ _
  | new_BottleneckBlock _ _ _ _ _
  | new_PruneBasicBlock _ _ _ _ => true
  | _ => false
  end.

(* ===================================================================== *)
(** * [xt/__init__.py]: the package body                                  *)
(* ===================================================================== *)

Module xt.

(** A module the body imports from: the submodule [xt.<name>] of the
    package, or a module outside it. *)
Inductive modpath :=
| in_xt (name : string)
| outside (path : string).

(** What a name of the package is bound to: an object imported from a
    module, a submodule of the package, a string or a list of names. *)
Inductive value :=
| member (module : modpath) (name : string)
| submodule (name : string)
| str (s : string)
| names (l : list string).

(** What the body does to the outside: it imports a name from a module, it
    calls an object, or it looks up a name that is not bound. *)
Inductive event :=
| import_of (module : modpath) (name : string)
| call_of (f : value)
| unbound (name : string).

(** The package while its body runs: the names bound in it, the submodules
    of [xt] loaded so far, and what the body has done. *)
Record state := {
  namespace : gmap string value;
  modules : gset string;
  trace : list event
}.

(** What code outside the body does while it runs: the submodules of [xt]
    it imports, in order, and whether it runs to its end. *)
Record effect := {
  imported : list string;
  finished : bool
}.

(** The rest of the program, as the body meets it: what executing each
    imported module does, which names a module provides, and what calling
    an object does. *)
Record World := {
  exec : modpath -> effect;
  provides : modpath -> string -> bool;
  run : value -> effect
}.

(** A statement either completes or raises at the event that failed. *)
Inductive completion (A : Type) :=
| completes (a : A)
| raises (e : event).
Arguments completes {A} a.
Arguments raises {A} e.

Definition M (A : Type) : Type := state -> completion A * state.

#[global] Instance M_ret : MRet M := fun A a s => (completes a, s).
#[global] Instance M_bind : MBind M :=
  fun A B f m s =>
    match m s with
    | (completes a, s') => f a s'
    | (raises e, s') => (raises e, s')
    end.

(** The import system binds a submodule on the package, under its own
    name, when it loads it for the first time. *)
Definition load_one (s : state) (n : string) : state :=
  if decide (n ∈ modules s) then s
  else {| namespace := <[n := submodule n]> (namespace s);
          modules := {[n]} ∪ modules s;
          trace := trace s |}.

Definition load (l : list string) (s : state) : state := foldl load_one s l.

(** The submodule of the package a module path names. *)
Definition own (m : modpath) : list string :=
  match m with
  | in_xt n => [n]
  | outside _ => []
  end.

(** [from module import name as alias]: the module is executed, which
    loads the submodules it imports; when it runs to its end it is loaded
    itself; the name is then looked up in it and bound.  What was loaded
    stays loaded when a later step fails. *)
Definition import_from_as (w : World) (module : modpath) (name alias : string)
  : M unit :=
  fun s =>
    let s1 := load (imported (exec w module)) s in
    if finished (exec w module) then
      let s2 := load (own module) s1 in
      if provides w module name then
        (completes tt,
         {| namespace := <[alias := member module name]> (namespace s2);
            modules := modules s2;
            trace := trace s2 ++ [import_of module name] |})
      else (raises (import_of module name), s2)
    else (raises (import_of module name), s1).

(** [name()] *)
Definition call (w : World) (name : string) : M unit :=
  fun s =>
    match namespace s !! name with
    | None => (raises (unbound name), s)
    | Some f =>
        let s1 := load (imported (run w f)) s in
        if finished (run w f) then
          (completes tt,
           {| namespace := namespace s1; modules := modules s1;
              trace := trace s1 ++ [call_of f] |})
        else (raises (call_of f), s1)
    end.

(** [name = v] *)
Definition assign (name : string) (v : value) : M unit :=
  fun s =>
    (completes tt,
     {| namespace := <[name := v]> (namespace s); modules := modules s;
        trace := trace s |}).

Definition newline : string := String (Ascii.ascii_of_nat 10) "".

(** The string of lines 1 to 5. *)
Definition docstring : string :=
  newline +:+ "XT init module." +:+ newline +:+ newline +:+
  "We register all the system module in here." +:+ newline.

Definition __init__ (w : World) : M unit :=
  assign "__doc__" (str docstring);;
  import_from_as w (in_xt "train") "main" "train";;
  import_from_as w (in_xt "evaluate") "main" "evaluate";;
  import_from_as w (in_xt "benchmarking") "main" "benchmarking";;
  import_from_as w (outside "zeus.common.util.register") "register_xt_defaults"
    "register_xt_defaults";;
  call w "register_xt_defaults";;
  assign "__version__" (str "0.2.0");;
  assign "__ALL__" (names ["train"; "evaluate"; "benchmarking"]).

(** The object the fourth import binds and the body then calls. *)
Definition register_xt_defaults : value :=
  member (outside "zeus.common.util.register") "register_xt_defaults".

(** The imports of the body, in source order. *)
Definition imports : list event :=
  [ import_of (in_xt "train") "main";
    import_of (in_xt "evaluate") "main";
    import_of (in_xt "benchmarking") "main";
    import_of (outside "zeus.common.util.register") "register_xt_defaults" ].

(** Every import of the body succeeds and [register_xt_defaults()]
    returns. *)
Definition ready (w : World) : bool :=
  finished (exec w (in_xt "train")) && provides w (in_xt "train") "main" &&
  finished (exec w (in_xt "evaluate")) && provides w (in_xt "evaluate") "main" &&
  finished (exec w (in_xt "benchmarking")) &&
  provides w (in_xt "benchmarking") "main" &&
  finished (exec w (outside "zeus.common.util.register")) &&
  provides w (outside "zeus.common.util.register") "register_xt_defaults" &&
  finished (run w register_xt_defaults).

(** The submodules of [xt] that the code the body runs imports. *)
Definition loads (w : World) : list string :=
  imported (exec w (in_xt "train")) ++
  imported (exec w (in_xt "evaluate")) ++
  imported (exec w (in_xt "benchmarking")) ++
  imported (exec w (outside "zeus.common.util.register")) ++
  imported (run w register_xt_defaults).



(** From [s] to [s'] the name [k] kept its binding, or it is one of the
    submodules [l] and was bound to that submodule. *)
Definition kept_or_loaded (l : list string) (k : string) (s s' : state)
  : Prop :=
  namespace s' !! k = namespace s !! k \/
  (k ∈ l /\ namespace s' !! k = Some (submodule k)).


End xt.

(* ===================================================================== *)
(** * Any framework against the permissive one                            *)
(* ===================================================================== *)

Lemma agree_refl {A : Type} (r : result A) : agree r r.
Proof. left; reflexivity. Qed.

Lemma agree_external (fw : Framework) (m : module) :
  agree (external fw m) (external permissive m).
Proof.
  unfold agree, external, permissive. destruct (fw m); [left | right; eexists]; reflexivity.
Qed.

Lemma agree_bind {A B : Type} (r rp : result A) (k kp : A -> result B) :
  agree r rp -> (forall a, agree (k a) (kp a)) -> agree (r ≫= k) (rp ≫= kp).
Proof.
  intros [-> | [x ->]] Hk.
  - destruct rp as [a | e]; cbn; [apply Hk | apply agree_refl].
  - right. exists x. reflexivity.
Qed.

Ltac unfold_calls :=
  unfold Module_init, Add, ops.Conv2d, ops.BatchNorm2d, ops.Relu, ops.MaxPool2d.

(** Walks two constructor bodies of the same shape statement by
    statement. *)
Ltac agree_body :=
  unfold_calls;
  repeat first
    [ apply agree_external
    | apply agree_refl
    | apply agree_bind; [ | intros ? ]
    | progress cbv zeta ].

Section AnyFramework.

Variable fw : Framework.

Lemma ShortCut_agrees i o e s :
  agree (ShortCut fw i o e s) (ShortCut permissive i o e s).
Proof.
  unfold ShortCut. apply agree_bind; [apply agree_external | intros self].
  destruct (negb (s =? 1) || negb (i =? o * e)); agree_body.
Qed.

Lemma BottleConv_agrees i o e g b s :
  agree (BottleConv fw i o e g b s) (BottleConv permissive i o e g b s).
Proof. unfold BottleConv. agree_body. Qed.

Lemma BasicConv_agrees i o g b s :
  agree (BasicConv fw i o g b s) (BasicConv permissive i o g b s).
Proof. unfold BasicConv. agree_body. Qed.

Lemma SmallInputInitialBlock_agrees p :
  agree (SmallInputInitialBlock fw p) (SmallInputInitialBlock permissive p).
Proof. unfold SmallInputInitialBlock. agree_body. Qed.

Lemma InitialBlock_agrees p :
  agree (InitialBlock fw p) (InitialBlock permissive p).
Proof. unfold InitialBlock. agree_body. Qed.

Lemma PruneBasicConv_agrees i o n s :
  agree (PruneBasicConv fw i o n s) (PruneBasicConv permissive i o n s).
Proof. unfold PruneBasicConv. agree_body. Qed.

Lemma BasicBlock_agrees i o g b s :
  agree (BasicBlock fw i o g b s) (BasicBlock permissive i o g b s).
Proof.
  unfold BasicBlock.
  apply agree_bind; [apply agree_external | intros self].
  apply agree_bind; [apply BasicConv_agrees | intros base_conv].
  apply agree_bind; [apply ShortCut_agrees | intros shortcut].
  agree_body.
Qed.

Lemma BottleneckBlock_agrees i o g b s :
  agree (BottleneckBlock fw i o g b s) (BottleneckBlock permissive i o g b s).
Proof.
  unfold BottleneckBlock.
  apply agree_bind; [apply agree_external | intros self].
  apply agree_bind; [apply BottleConv_agrees | intros bottle_conv].
  apply agree_bind; [apply ShortCut_agrees | intros shortcut].
  agree_body.
Qed.

Lemma PruneBasicBlock_agrees i o n s :
  agree (PruneBasicBlock fw i o n s) (PruneBasicBlock permissive i o n s).
Proof.
  unfold PruneBasicBlock.
  apply agree_bind; [apply agree_external | intros self].
  apply agree_bind; [apply PruneBasicConv_agrees | intros conv_block].
  apply agree_bind; [apply ShortCut_agrees | intros shortcut].
  agree_body.
Qed.

Lemma construct_agrees (c : Call) :
  agree (construct fw c) (construct permissive c).
Proof.
  destruct c; cbn [construct];
    auto using ShortCut_agrees, BottleConv_agrees, BasicConv_agrees,
      SmallInputInitialBlock_agrees, InitialBlock_agrees, BasicBlock_agrees,
      BottleneckBlock_agrees, PruneBasicBlock_agrees, PruneBasicConv_agrees.
Qed.

End AnyFramework.

Lemma agree_Ok_inv {A : Type} (r rp : result A) (a : A) :
  agree r rp -> r = Ok a -> rp = Ok a.
Proof. intros [-> | [x ->]] H; [exact H | discriminate]. Qed.

(* ===================================================================== *)
(** * binary64 arithmetic of the width expression                         *)
(* ===================================================================== *)

Lemma fexp_binary64 (e : Z) : fexp prec emax e = Z.max (e - 53) (-1074).
Proof. reflexivity. Qed.

Lemma Zdigits2_log2 (m : Z) : 0 < m -> Zdigits2 m = Z.log2 m + 1.
Proof.
  destruct m as [| p | p]; try lia. intros _. cbn [Zdigits2].
  assert (H : forall q, digits2_pos q = Pos.size q) by (induction q; cbn; congruence).
  rewrite H. destruct p; cbn; lia.
Qed.

Lemma Zdigits2_bounds (m : Z) :
  0 < m -> 2 ^ (Zdigits2 m - 1) <= m < 2 ^ Zdigits2 m.
Proof.
  intros Hm. rewrite Zdigits2_log2 by exact Hm.
  replace (Z.log2 m + 1 - 1) with (Z.log2 m) by lia.
  apply Z.log2_spec. exact Hm.
Qed.

Lemma Zdigits2_unique (m d : Z) :
  1 <= d -> 2 ^ (d - 1) <= m < 2 ^ d -> Zdigits2 m = d.
Proof.
  intros Hd Hm.
  assert (0 < m) by (pose proof (Z.pow_pos_nonneg 2 (d - 1)); lia).
  rewrite Zdigits2_log2 by assumption.
  rewrite (Z.log2_unique m (d - 1)); [lia | lia |].
  replace (Z.succ (d - 1)) with d by lia. exact Hm.
Qed.

Lemma Zdigits2_mul_pow2 (m k : Z) :
  0 < m -> 0 <= k -> Zdigits2 (m * 2 ^ k) = Zdigits2 m + k.
Proof.
  intros Hm Hk.
  assert (0 < m * 2 ^ k) by (apply Z.mul_pos_pos; [lia | apply Z.pow_pos_nonneg; lia]).
  rewrite !Zdigits2_log2 by assumption.
  rewrite Z.log2_mul_pow2 by lia. lia.
Qed.

(** ** Shifting a mantissa right *)

Lemma shr_1_m (r : shr_record) :
  0 <= shr_m r -> shr_m (shr_1 r) = shr_m r / 2 /\ 0 <= shr_m (shr_1 r).
Proof.
  destruct r as [m r s]. cbn [shr_m]. intros Hm.
  destruct m as [| p | p]; [cbn; split; [reflexivity | lia] | | lia].
  destruct p as [p | p |]; cbn [shr_1 shr_m].
  - split; [| lia]. apply (Z.div_unique _ _ _ 1); lia.
  - split; [| lia]. apply (Z.div_unique _ _ _ 0); lia.
  - split; [reflexivity | lia].
Qed.

Lemma iter_shr_1_m (k : positive) (r : shr_record) :
  0 <= shr_m r ->
  shr_m (SpecFloat.iter_pos shr_1 k r) = shr_m r / 2 ^ Z.pos k /\
  0 <= shr_m (SpecFloat.iter_pos shr_1 k r).
Proof.
  revert r. induction k as [k IH | k IH |]; intros r Hr; cbn [SpecFloat.iter_pos].
  - destruct (shr_1_m r Hr) as [E1 P1].
    destruct (IH _ P1) as [E2 P2]. destruct (IH _ P2) as [E3 P3].
    split; [| exact P3]. rewrite E3, E2, E1.
    rewrite !Z.div_div by (try apply Z.pow_pos_nonneg; lia).
    f_equal. rewrite Pos2Z.inj_xI.
    rewrite <- Z.pow_add_r, <- Z.pow_succ_r by lia. f_equal. lia.
  - destruct (IH _ Hr) as [E2 P2]. destruct (IH _ P2) as [E3 P3].
    split; [| exact P3]. rewrite E3, E2.
    rewrite !Z.div_div by (try apply Z.pow_pos_nonneg; lia).
    f_equal. rewrite Pos2Z.inj_xO.
    rewrite <- Z.pow_add_r by lia. f_equal. lia.
  - destruct (shr_1_m r Hr) as [E1 P1]. split; [exact E1 | exact P1].
Qed.

Lemma shr_m_spec (r : shr_record) (e n : Z) :
  0 <= shr_m r ->
  shr_m (fst (shr r e n)) = shr_m r / 2 ^ Z.max 0 n /\
  snd (shr r e n) = e + Z.max 0 n.
Proof.
  intros Hr. destruct n as [| k | k]; cbn [shr fst snd].
  - rewrite Z.div_1_r. split; [reflexivity | lia].
  - replace (Z.max 0 (Z.pos k)) with (Z.pos k) by lia.
    split; [apply iter_shr_1_m; exact Hr | reflexivity].
  - replace (Z.max 0 (Z.neg k)) with 0 by lia.
    rewrite Z.div_1_r. split; [reflexivity | lia].
Qed.

Lemma shr_record_of_loc_m (m : Z) (l : location) :
  shr_m (shr_record_of_loc m l) = m.
Proof. destruct l as [| []]; reflexivity. Qed.

Lemma shr_fexp_spec (m e : Z) (l : location) :
  0 <= m ->
  let n := Z.max 0 (fexp prec emax (Zdigits2 m + e) - e) in
  shr_m (fst (shr_fexp prec emax m e l)) = m / 2 ^ n /\
  snd (shr_fexp prec emax m e l) = e + n.
Proof.
  intros Hm n. unfold shr_fexp.
  pose proof (shr_m_spec (shr_record_of_loc m l) e
                (fexp prec emax (Zdigits2 m + e) - e)) as H.
  rewrite shr_record_of_loc_m in H. apply H. exact Hm.
Qed.

Lemma round_nearest_even_cases (m : Z) (l : location) :
  round_nearest_even m l = m \/ round_nearest_even m l = m + 1.
Proof. destruct l as [| []]; cbn; try destruct (Z.even m); auto. Qed.

Lemma pow2_52 : 2 ^ 52 = 4503599627370496. Proof. reflexivity. Qed.
Lemma pow2_53 : 2 ^ 53 = 9007199254740992. Proof. reflexivity. Qed.

(** Dropping all but the leading 53 bits. *)
Lemma leading_bits (mx : Z) :
  0 < mx -> 53 <= Zdigits2 mx ->
  2 ^ 52 <= mx / 2 ^ (Zdigits2 mx - 53) < 2 ^ 53.
Proof.
  intros Hm Hd. pose proof (Zdigits2_bounds mx Hm) as [Hlo Hhi].
  assert (Hp : 0 < 2 ^ (Zdigits2 mx - 53)) by (apply Z.pow_pos_nonneg; lia).
  split.
  - apply Z.div_le_lower_bound; [exact Hp |].
    rewrite <- Z.pow_add_r by lia.
    replace (Zdigits2 mx - 53 + 52) with (Zdigits2 mx - 1) by lia. exact Hlo.
  - apply Z.div_lt_upper_bound; [exact Hp |].
    rewrite <- Z.pow_add_r by lia.
    replace (Zdigits2 mx - 53 + 53) with (Zdigits2 mx) by lia. exact Hhi.
Qed.

(** Rounding a mantissa of at least 53 bits in the normal range gives a
    53-bit mantissa, or an infinity when the exponent leaves the range. *)
Lemma binary_round_aux_normal (sx : bool) (mx ex : Z) (lx : location) :
  0 < mx -> 53 <= Zdigits2 mx -> -1074 <= Zdigits2 mx + ex - 53 ->
  exists m e,
    Z.pos (digits2_pos m) = 53 /\
    Zdigits2 mx + ex - 53 <= e <= Zdigits2 mx + ex - 52 /\
    binary_round_aux prec emax sx mx ex lx
      = if e <=? 971 then S754_finite sx m e else S754_infinity sx.
Proof.
  intros Hm Hd He. unfold binary_round_aux.
  pose proof (shr_fexp_spec mx ex lx ltac:(lia)) as [E1 X1]. cbv zeta in E1, X1.
  destruct (shr_fexp prec emax mx ex lx) as [r1 e1]. cbn [fst snd] in E1, X1.
  rewrite fexp_binary64 in E1, X1.
  replace (Z.max 0 (Z.max (Zdigits2 mx + ex - 53) (-1074) - ex))
    with (Zdigits2 mx - 53) in E1, X1 by lia.
  pose proof (leading_bits mx Hm Hd) as Hl. rewrite <- E1 in Hl.
  set (m1 := round_nearest_even (shr_m r1) (loc_of_shr_record r1)).
  assert (H1 : 2 ^ 52 <= m1 <= 2 ^ 53).
  { destruct (round_nearest_even_cases (shr_m r1) (loc_of_shr_record r1)) as [E | E];
      fold m1 in E; rewrite E; lia. }
  pose proof (shr_fexp_spec m1 e1 loc_Exact) as H2. cbv zeta in H2.
  rewrite pow2_52, pow2_53 in H1.
  specialize (H2 ltac:(lia)). destruct H2 as [E2 X2].
  destruct (shr_fexp prec emax m1 e1 loc_Exact) as [r2 e2]. cbn [fst snd] in E2, X2.
  rewrite fexp_binary64 in E2, X2.
  change (emax - prec) with 971.
  assert (Hcase : m1 < 2 ^ 53 \/ m1 = 2 ^ 53) by (rewrite pow2_53; lia).
  destruct Hcase as [Hlt | Heq].
  - assert (Hd1 : Zdigits2 m1 = 53).
    { apply Zdigits2_unique; [lia |]. change (53 - 1) with 52.
      rewrite pow2_52. rewrite pow2_53 in *. lia. }
    rewrite Hd1 in E2, X2.
    replace (Z.max 0 (Z.max (53 + e1 - 53) (-1074) - e1)) with 0 in E2, X2 by lia.
    rewrite Z.div_1_r in E2.
    destruct (shr_m r2) as [| m | m] eqn:Em; try lia.
    exists m, e2. split; [| split; [lia | reflexivity]].
    change (Z.pos (digits2_pos m)) with (Zdigits2 (Z.pos m)). rewrite E2. exact Hd1.
  - assert (Hd1 : Zdigits2 m1 = 54).
    { rewrite Heq. reflexivity. }
    rewrite Hd1 in E2, X2.
    replace (Z.max 0 (Z.max (54 + e1 - 53) (-1074) - e1)) with 1 in E2, X2 by lia.
    rewrite Heq in E2. change (2 ^ 53 / 2 ^ 1) with (2 ^ 52) in E2.
    destruct (shr_m r2) as [| m | m] eqn:Em; try discriminate E2.
    exists m, e2. split; [| split; [lia | reflexivity]].
    injection E2 as ->. reflexivity.
Qed.

Lemma shr_1_even (a : Z) :
  0 <= a ->
  shr_1 (Build_shr_record (2 * a) false false) = Build_shr_record a false false.
Proof. destruct a as [| p | p]; [reflexivity | reflexivity | lia]. Qed.

Lemma iter_shr_1_exact (k : positive) (m : Z) :
  0 <= m ->
  SpecFloat.iter_pos shr_1 k (Build_shr_record (m * 2 ^ Z.pos k) false false)
    = Build_shr_record m false false.
Proof.
  revert m. induction k as [k IH | k IH |]; intros m Hm; cbn [SpecFloat.iter_pos].
  - assert (Hk : 0 <= m * 2 ^ Z.pos k) by (apply Z.mul_nonneg_nonneg; lia).
    replace (m * 2 ^ Z.pos k~1) with (2 * (m * 2 ^ Z.pos k * 2 ^ Z.pos k)).
    + rewrite shr_1_even by (apply Z.mul_nonneg_nonneg; lia).
      rewrite IH by exact Hk. apply IH. exact Hm.
    + replace (Z.pos k~1) with (Z.pos k + Z.pos k + 1) by lia.
      rewrite !Z.pow_add_r, Z.pow_1_r by lia. ring.
  - assert (Hk : 0 <= m * 2 ^ Z.pos k) by (apply Z.mul_nonneg_nonneg; lia).
    replace (m * 2 ^ Z.pos k~0) with (m * 2 ^ Z.pos k * 2 ^ Z.pos k).
    + rewrite IH by exact Hk. apply IH. exact Hm.
    + replace (Z.pos k~0) with (Z.pos k + Z.pos k) by lia.
      rewrite Z.pow_add_r by lia. ring.
  - rewrite Z.pow_1_r, Z.mul_comm. apply shr_1_even. exact Hm.
Qed.

(** A 53-bit mantissa followed by [k] zero bits rounds to itself. *)
Lemma binary_round_aux_exact (sx : bool) (m : positive) (k ex : Z) :
  Z.pos (digits2_pos m) = 53 -> 0 <= k -> -1074 <= ex + k ->
  binary_round_aux prec emax sx (Z.pos m * 2 ^ k) ex loc_Exact
    = if ex + k <=? 971 then S754_finite sx m (ex + k) else S754_infinity sx.
Proof.
  intros Hd Hk He. unfold binary_round_aux, shr_fexp.
  rewrite Zdigits2_mul_pow2 by lia. cbn [Zdigits2]. rewrite Hd.
  rewrite fexp_binary64.
  replace (Z.max (53 + k + ex - 53) (-1074) - ex) with k by lia.
  cbn [shr_record_of_loc].
  assert (Hs : shr (Build_shr_record (Z.pos m * 2 ^ k) false false) ex k
               = (Build_shr_record (Z.pos m) false false, ex + k)).
  { destruct k as [| p | p]; [| | lia].
    - cbn [shr]. rewrite Z.pow_0_r, Z.mul_1_r, Z.add_0_r. reflexivity.
    - cbn [shr]. rewrite iter_shr_1_exact by lia. reflexivity. }
  rewrite Hs. cbn [shr_m loc_of_shr_record round_nearest_even Zdigits2].
  rewrite Hd, fexp_binary64.
  replace (Z.max (53 + (ex + k) - 53) (-1074) - (ex + k)) with 0 by lia.
  cbn [shr shr_m]. reflexivity.
Qed.

Lemma iter_xO_pow2 (p k : positive) :
  Z.pos (Pos.iter xO p k) = Z.pos p * 2 ^ Z.pos k.
Proof.
  induction k as [| k IH] using Pos.peano_ind.
  - cbn [Pos.iter]. rewrite Z.pow_1_r. lia.
  - rewrite Pos.iter_succ, Pos2Z.inj_xO, IH, Pos2Z.inj_succ, Z.pow_succ_r by lia.
    ring.
Qed.

(** Converting a non-zero integer: the mantissa has 53 bits. *)
Lemma binary_round_int (s : bool) (p : positive) :
  exists m e,
    Z.pos (digits2_pos m) = 53 /\
    Z.pos (digits2_pos p) - 53 <= e <= Z.pos (digits2_pos p) - 52 /\
    binary_round prec emax s p 0
      = if e <=? 971 then S754_finite s m e else S754_infinity s.
Proof.
  unfold binary_round, shl_align. rewrite fexp_binary64.
  set (d := Z.pos (digits2_pos p)).
  assert (Hd : 1 <= d) by (unfold d; lia).
  replace (d + 0) with d by lia.
  replace (Z.max (d - 53) (-1074)) with (d - 53) by lia.
  replace (d - 53 - 0) with (d - 53) by lia.
  destruct (d - 53) as [| k | k] eqn:Ek.
  - pose proof (binary_round_aux_exact s p 0 0 ltac:(fold d; lia) ltac:(lia) ltac:(lia)) as H.
    rewrite Z.pow_0_r, Z.mul_1_r in H. cbn [Z.add] in H.
    exists p, 0. split; [fold d; lia | split; [lia | exact H]].
  - pose proof (binary_round_aux_normal s (Z.pos p) 0 loc_Exact
                  ltac:(lia) ltac:(cbn [Zdigits2]; fold d; lia)
                  ltac:(cbn [Zdigits2]; fold d; lia)) as (m & e & Hm & He & H).
    cbn [Zdigits2] in He. fold d in He.
    exists m, e. split; [exact Hm | split; [lia | exact H]].
  - assert (Hz : Zdigits2 (Z.pos (Pos.iter xO p k)) = 53).
    { rewrite iter_xO_pow2, Zdigits2_mul_pow2 by lia. cbn [Zdigits2]. fold d. lia. }
    pose proof (binary_round_aux_exact s (Pos.iter xO p k) 0 (Z.neg k)
                  Hz ltac:(lia) ltac:(lia)) as H.
    rewrite Z.pow_0_r, Z.mul_1_r, Z.add_0_r in H.
    exists (Pos.iter xO p k), (Z.neg k).
    split; [exact Hz | split; [lia | exact H]].
Qed.

(** Below [2 ^ 53] the conversion is exact. *)
Lemma binary_round_small (s : bool) (p : positive) :
  Z.pos p < 2 ^ 53 ->
  exists m k,
    0 <= k <= 52 /\ Z.pos m = Z.pos p * 2 ^ k /\ Z.pos (digits2_pos m) = 53 /\
    binary_round prec emax s p 0 = S754_finite s m (- k).
Proof.
  intros Hp. unfold binary_round, shl_align. rewrite fexp_binary64.
  set (d := Z.pos (digits2_pos p)).
  assert (Hd : 1 <= d <= 53).
  { split; [unfold d; lia |].
    pose proof (Zdigits2_bounds (Z.pos p) ltac:(lia)) as [Hlo _].
    cbn [Zdigits2] in Hlo. fold d in Hlo.
    destruct (Z.le_gt_cases d 53) as [H | H]; [exact H | exfalso].
    assert (2 ^ 53 <= 2 ^ (d - 1)) by (apply Z.pow_le_mono_r; lia). lia. }
  replace (d + 0) with d by lia.
  replace (Z.max (d - 53) (-1074)) with (d - 53) by lia.
  replace (d - 53 - 0) with (d - 53) by lia.
  destruct (d - 53) as [| k | k] eqn:Ek; [| lia |].
  - pose proof (binary_round_aux_exact s p 0 0 ltac:(fold d; lia) ltac:(lia) ltac:(lia)) as H.
    rewrite Z.pow_0_r, Z.mul_1_r in H. cbn [Z.add Z.leb Z.compare] in H.
    exists p, 0. rewrite Z.pow_0_r, Z.mul_1_r.
    split; [lia | split; [reflexivity | split; [fold d; lia | exact H]]].
  - assert (Hz : Zdigits2 (Z.pos (Pos.iter xO p k)) = 53).
    { rewrite iter_xO_pow2, Zdigits2_mul_pow2 by lia. cbn [Zdigits2]. fold d. lia. }
    pose proof (binary_round_aux_exact s (Pos.iter xO p k) 0 (Z.neg k)
                  Hz ltac:(lia) ltac:(lia)) as H.
    rewrite Z.pow_0_r, Z.mul_1_r, Z.add_0_r in H.
    replace (Z.neg k <=? 971) with true in H by reflexivity.
    exists (Pos.iter xO p k), (Z.pos k).
    split; [lia | split; [apply iter_xO_pow2 | split; [exact Hz | exact H]]].
Qed.


Lemma digits_below (p : positive) (k : Z) :
  0 <= k -> Z.pos p < 2 ^ k -> Z.pos (digits2_pos p) <= k.
Proof.
  intros Hk Hp. change (Z.pos (digits2_pos p)) with (Zdigits2 (Z.pos p)).
  rewrite Zdigits2_log2 by lia.
  assert (Z.log2 (Z.pos p) < k) by (apply Z.log2_lt_pow2; lia). lia.
Qed.

(** An integer below [2 ^ k] in magnitude converts without overflow. *)
Lemma float_of_int_bounded (n k : Z) :
  0 <= k <= 1023 -> - 2 ^ k < n < 2 ^ k ->
  exists f, float_of_int n = Ok f /\ normal_in (-52) (k - 52) f.
Proof.
  intros Hk Hn. unfold float_of_int, binary_normalize.
  destruct n as [| p | p].
  - eexists. split; [reflexivity | exact I].
  - destruct (binary_round_int false p) as (m & e & Hm & He & ->).
    pose proof (digits_below p k ltac:(lia) ltac:(lia)) as Hd.
    replace (e <=? 971) with true by (symmetry; apply Z.leb_le; lia).
    eexists. split; [reflexivity |]. cbn. lia.
  - destruct (binary_round_int true p) as (m & e & Hm & He & ->).
    pose proof (digits_below p k ltac:(lia) ltac:(lia)) as Hd.
    replace (e <=? 971) with true by (symmetry; apply Z.leb_le; lia).
    eexists. split; [reflexivity |]. cbn. lia.
Qed.

Lemma Z_div_eucl_eq (a b : Z) : Z.div_eucl a b = (a / b, a mod b).
Proof. unfold Z.div, Z.modulo. destruct (Z.div_eucl a b). reflexivity. Qed.

Lemma SFdiv_core_64 (m : positive) (e : Z) :
  Z.pos (digits2_pos m) = 53 -> -1000 <= e ->
  SFdiv_core_binary prec emax (Z.pos m) e 4503599627370496 (-46)
    = (Z.pos m * 2 ^ 1, e - 7, loc_Exact).
Proof.
  intros Hm He. unfold SFdiv_core_binary.
  cbn [Zdigits2]. rewrite Hm.
  change (Z.pos (digits2_pos 4503599627370496)) with 53.
  rewrite fexp_binary64.
  replace (Z.min (Z.max (53 + e - (53 + -46) - 53) (-1074)) (e - -46))
    with (e - 7) by lia.
  replace (e - -46 - (e - 7)) with 53 by lia.
  rewrite Z.shiftl_mul_pow2 by lia.
  rewrite Z_div_eucl_eq.
  replace (Z.pos m * 2 ^ 53) with (Z.pos m * 2 ^ 1 * 4503599627370496).
  - rewrite Z.div_mul, Z.mod_mul by lia. reflexivity.
  - change 4503599627370496 with (2 ^ 52). rewrite <- Z.mul_assoc.
    rewrite <- Z.pow_add_r by lia. reflexivity.
Qed.

(** Dividing by [64.] lowers the exponent by six. *)
Lemma SFdiv_64 (s : bool) (m : positive) (e : Z) :
  Z.pos (digits2_pos m) = 53 -> -1000 <= e <= 971 ->
  SFdiv prec emax (S754_finite s m e) float_64 = S754_finite s m (e - 6).
Proof.
  intros Hm He. unfold SFdiv, float_64.
  rewrite (SFdiv_core_64 m e Hm) by lia.
  rewrite xorb_false_r.
  rewrite (binary_round_aux_exact s m 1 (e - 7) Hm) by lia.
  replace (e - 7 + 1) with (e - 6) by lia.
  replace (e - 6 <=? 971) with true by (symmetry; apply Z.leb_le; lia).
  reflexivity.
Qed.

Lemma SFdiv_64_normal (lo hi : Z) (f : spec_float) :
  -1000 <= lo -> hi <= 971 -> normal_in lo hi f ->
  normal_in (lo - 6) (hi - 6) (SFdiv prec emax f float_64).
Proof.
  intros Hlo Hhi Hf.
  destruct f as [s | s | | s m e]; cbn in Hf; try contradiction.
  - exact I.
  - destruct Hf as [Hm He]. rewrite (SFdiv_64 s m e Hm) by lia. cbn. lia.
Qed.


Lemma product_53_digits (mx my : positive) :
  Z.pos (digits2_pos mx) = 53 -> Z.pos (digits2_pos my) = 53 ->
  105 <= Zdigits2 (Z.pos (mx * my)) <= 106.
Proof.
  intros Hx Hy.
  pose proof (Zdigits2_bounds (Z.pos mx) ltac:(lia)) as Bx.
  pose proof (Zdigits2_bounds (Z.pos my) ltac:(lia)) as By.
  cbn [Zdigits2] in Bx, By. rewrite Hx in Bx. rewrite Hy in By.
  change (53 - 1) with 52 in Bx, By.
  rewrite Pos2Z.inj_mul.
  assert (Hlo : 2 ^ 104 <= Z.pos mx * Z.pos my).
  { change (2 ^ 104) with (2 ^ 52 * 2 ^ 52). apply Z.mul_le_mono_nonneg; lia. }
  assert (Hhi : Z.pos mx * Z.pos my < 2 ^ 106).
  { change (2 ^ 106) with (2 ^ 53 * 2 ^ 53). apply Z.mul_lt_mono_nonneg; lia. }
  rewrite Zdigits2_log2 by lia.
  assert (104 <= Z.log2 (Z.pos mx * Z.pos my)) by (apply Z.log2_le_pow2; lia).
  assert (Z.log2 (Z.pos mx * Z.pos my) < 106) by (apply Z.log2_lt_pow2; lia).
  lia.
Qed.

(** The product of two such floats is a zero, a finite float or, when the
    exponents are too large, an infinity; it is never a NaN. *)
Lemma SFmul_cases (hx hy : Z) (x y : spec_float) :
  normal_in (-52) hx x -> normal_in (-58) hy y ->
  match SFmul prec emax x y with
  | S754_zero _ | S754_finite _ _ _ => True
  | S754_infinity _ => 917 < hx + hy
  | S754_nan => False
  end.
Proof.
  intros Hx Hy.
  destruct x as [sx | sx | | sx mx ex], y as [sy | sy | | sy my ey];
    cbn in Hx, Hy; try contradiction; cbn [SFmul]; try exact I.
  destruct Hx as [Hmx Hex], Hy as [Hmy Hey].
  pose proof (product_53_digits mx my Hmx Hmy) as Hd.
  destruct (binary_round_aux_normal (xorb sx sy) (Z.pos (mx * my)) (ex + ey)
              loc_Exact ltac:(lia) ltac:(lia) ltac:(lia)) as (m & e & _ & He & ->).
  destruct (e <=? 971) eqn:E; [exact I |]. apply Z.leb_gt in E. lia.
Qed.


(** Operands below [2 ^ 500] in magnitude keep the width expression inside
    the float range: it returns. *)
Lemma bottle_width_returns (outchannel groups base_width : Z) :
  - 2 ^ 500 < outchannel < 2 ^ 500 ->
  - 2 ^ 500 < base_width < 2 ^ 500 ->
  exists w, bottle_width outchannel groups base_width = Ok w.
Proof.
  intros Ho Hb. unfold bottle_width, int_truediv_float, int_mul_float.
  destruct (float_of_int_bounded base_width 500 ltac:(lia) Hb) as (fb & -> & Hfb).
  destruct (float_of_int_bounded outchannel 500 ltac:(lia) Ho) as (fo & -> & Hfo).
  cbn [mbind result_bind mret result_ret].
  pose proof (SFdiv_64_normal (-52) (500 - 52) fb ltac:(lia) ltac:(lia) Hfb) as Hq.
  pose proof (SFmul_cases (500 - 52) (500 - 52 - 6) fo _ Hfo Hq) as Hp.
  destruct (SFmul prec emax fo (SFdiv prec emax fb float_64));
    cbn [int_of_float mbind result_bind]; first [lia | contradiction | eauto].
Qed.

Lemma sixty_four_over_64 : int_truediv_float 64 float_64 = Ok float_1.
Proof. vm_compute. reflexivity. Qed.

(** Multiplying by [1.0] changes nothing. *)
Lemma SFmul_1 (s : bool) (m : positive) (e : Z) :
  Z.pos (digits2_pos m) = 53 -> -1000 <= e <= 971 ->
  SFmul prec emax (S754_finite s m e) float_1 = S754_finite s m e.
Proof.
  intros Hm He. unfold float_1. cbn [SFmul].
  rewrite xorb_false_r, Pos2Z.inj_mul.
  change (Z.pos 4503599627370496) with (2 ^ 52).
  rewrite (binary_round_aux_exact s m 52 (e + -52) Hm) by lia.
  replace (e + -52 + 52) with e by lia.
  replace (e <=? 971) with true by (symmetry; apply Z.leb_le; lia).
  reflexivity.
Qed.

Lemma int_mul_float_1 (n : Z) :
  - 2 ^ 53 < n < 2 ^ 53 ->
  (int_mul_float n float_1 ≫= int_of_float) = Ok n.
Proof.
  intros Hn. unfold int_mul_float, float_of_int, binary_normalize.
  destruct n as [| p | p].
  - reflexivity.
  - destruct (binary_round_small false p ltac:(lia)) as (m & k & Hk & Hmk & Hm & ->).
    cbn [mbind result_bind mret result_ret].
    rewrite (SFmul_1 false m (- k) Hm) by lia.
    cbn [int_of_float]. f_equal.
    destruct (0 <=? - k) eqn:E.
    + apply Z.leb_le in E. assert (k = 0) as -> by lia.
      rewrite Hmk, Z.opp_0, !Z.pow_0_r. lia.
    + rewrite Z.opp_involutive, Hmk. apply Z.div_mul.
      pose proof (Z.pow_pos_nonneg 2 k). lia.
  - destruct (binary_round_small true p ltac:(lia)) as (m & k & Hk & Hmk & Hm & ->).
    cbn [mbind result_bind mret result_ret].
    rewrite (SFmul_1 true m (- k) Hm) by lia.
    cbn [int_of_float]. f_equal.
    destruct (0 <=? - k) eqn:E.
    + apply Z.leb_le in E. assert (k = 0) as -> by lia.
      rewrite Hmk, Z.opp_0, !Z.pow_0_r. lia.
    + rewrite Z.opp_involutive, Hmk, Z.div_mul; [lia |].
      pose proof (Z.pow_pos_nonneg 2 k). lia.
Qed.

(** With the default [base_width = 64] the width is [outchannel * groups],
    as long as [outchannel] is exactly representable. *)
Lemma bottle_width_base_64 (outchannel groups : Z) :
  - 2 ^ 53 < outchannel < 2 ^ 53 ->
  bottle_width outchannel groups 64 = Ok (outchannel * groups).
Proof.
  intros Ho. unfold bottle_width. rewrite sixty_four_over_64.
  cbn [mbind result_bind].
  pose proof (int_mul_float_1 outchannel Ho) as H.
  destruct (int_mul_float outchannel float_1) as [x | x]; cbn [mbind result_bind] in H |- *;
    [| discriminate H].
  rewrite H. reflexivity.
Qed.

(* ===================================================================== *)
(** * What each constructor builds when every call is accepted            *)
(* ===================================================================== *)

Lemma ShortCut_permissive i o e s :
  ShortCut permissive i o e s =
  Ok (LBlock class_ShortCut
        (if needs_projection i o e s then projection i o e s else [])).
Proof.
  unfold ShortCut, needs_projection.
  destruct (negb (s =? 1) || negb (i =? o * e)); reflexivity.
Qed.

Lemma needs_projection_spec i o e s :
  needs_projection i o e s = true <-> (s <> 1 \/ i <> o * e).
Proof.
  unfold needs_projection.
  rewrite orb_true_iff, !negb_true_iff, !Z.eqb_neq. reflexivity.
Qed.

Lemma needs_projection_false i o e s :
  needs_projection i o e s = false <-> (s = 1 /\ i = o * e).
Proof.
  unfold needs_projection.
  rewrite orb_false_iff, !negb_false_iff, !Z.eqb_eq. reflexivity.
Qed.

(** Whatever the arguments, a shortcut with expansion [e] hands on
    [o * e] channels when fed [i]. *)
Lemma ShortCut_channels i o e s :
  channels (LBlock class_ShortCut
              (if needs_projection i o e s then projection i o e s else [])) i
  = Some (o * e).
Proof.
  destruct (needs_projection i o e s) eqn:E.
  - cbn. rewrite !Z.eqb_refl. reflexivity.
  - apply needs_projection_false in E as [_ ->]. reflexivity.
Qed.

Lemma BasicConv_permissive i o g b s :
  BasicConv permissive i o g b s =
  Ok (LBlock class_BasicConv
        [ ("conv", LConv2d {| in_channels := i; out_channels := o;
                              kernel_size := 3; stride := Some s;
                              padding := Some 1; groups := Some g;
                              bias := false |});
          ("batch", LBatchNorm2d o);
          ("relu", LRelu (Some true));
          ("conv2", LConv2d {| in_channels := o; out_channels := o;
                               kernel_size := 3; stride := None;
                               padding := Some 1; groups := Some g;
                               bias := false |});
          ("batch2", LBatchNorm2d o) ]).
Proof. reflexivity. Qed.

Lemma PruneBasicConv_permissive i o n s :
  PruneBasicConv permissive i o n s =
  Ok (LBlock class_PruneBasicConv
        [ ("conv1", LConv2d {| in_channels := i; out_channels := n;
                               kernel_size := 3; stride := Some s;
                               padding := Some 1; groups := None;
                               bias := false |});
          ("bn1", LBatchNorm2d n);
          ("relu", LRelu None);
          ("conv2", LConv2d {| in_channels := n; out_channels := o;
                               kernel_size := 3; stride := Some 1;
                               padding := Some 1; groups := None;
                               bias := false |});
          ("bn2", LBatchNorm2d o);
          ("relu2", LRelu None) ]).
Proof. reflexivity. Qed.

Lemma BottleConv_permissive i o e g b s :
  BottleConv permissive i o e g b s =
  w ← bottle_width o g b;
  Ok (LBlock class_BottleConv
        [ ("conv1", LConv2d {| in_channels := i; out_channels := w;
                               kernel_size := 1; stride := Some 1;
                               padding := None; groups := None;
                               bias := false |});
          ("batch1", LBatchNorm2d w);
          ("conv2", LConv2d {| in_channels := w; out_channels := w;
                               kernel_size := 3; stride := Some s;
                               padding := Some 1; groups := Some g;
                               bias := false |});
          ("batch2", LBatchNorm2d w);
          ("conv3", LConv2d {| in_channels := w; out_channels := w * e;
                               kernel_size := 1; stride := Some 1;
                               padding := None; groups := None;
                               bias := false |});
          ("batch3", LBatchNorm2d (w * e));
          ("relu", LRelu None) ]).
Proof. reflexivity. Qed.

Lemma SmallInputInitialBlock_permissive p :
  SmallInputInitialBlock permissive p =
  Ok (LBlock class_SmallInputInitialBlock
        [ ("conv", LConv2d {| in_channels := 3; out_channels := p;
                              kernel_size := 3; stride := Some 1;
                              padding := Some 1; groups := None;
                              bias := false |});
          ("bn", LBatchNorm2d p);
          ("relu", LRelu None) ]).
Proof. reflexivity. Qed.

Lemma InitialBlock_permissive p :
  InitialBlock permissive p =
  Ok (LBlock class_InitialBlock
        [ ("conv", LConv2d {| in_channels := 3; out_channels := p;
                              kernel_size := 7; stride := Some 2;
                              padding := Some 3; groups := None;
                              bias := false |});
          ("batch", LBatchNorm2d p);
          ("maxpool2d", LMaxPool2d 3 2 1) ]).
Proof. reflexivity. Qed.

Lemma BasicBlock_permissive i o g b s :
  BasicBlock permissive i o g b s =
  base_conv ← BasicConv permissive i o g b s;
  shortcut ← ShortCut permissive i o BasicBlock_expansion s;
  Ok (LBlock class_BasicBlock
        [ ("block", LAdd [base_conv; shortcut]); ("relu", LRelu None) ]).
Proof.
  unfold BasicBlock. rewrite BasicConv_permissive, ShortCut_permissive.
  reflexivity.
Qed.

Lemma BottleneckBlock_permissive i o g b s :
  BottleneckBlock permissive i o g b s =
  bottle_conv ← BottleConv permissive i o BottleneckBlock_expansion g b s;
  shortcut ← ShortCut permissive i o BottleneckBlock_expansion s;
  Ok (LBlock class_BottleneckBlock
        [ ("block", LAdd [bottle_conv; shortcut]); ("relu", LRelu None) ]).
Proof.
  unfold BottleneckBlock. rewrite BottleConv_permissive, ShortCut_permissive.
  destruct (bottle_width o g b); reflexivity.
Qed.

Lemma PruneBasicBlock_permissive i o n s :
  PruneBasicBlock permissive i o n s =
  conv_block ← PruneBasicConv permissive i o n s;
  shortcut ← ShortCut permissive i o PruneBasicBlock_expansion s;
  Ok (LBlock class_PruneBasicBlock
        [ ("block", LAdd [conv_block; shortcut]); ("relu3", LRelu None) ]).
Proof.
  unfold PruneBasicBlock. rewrite PruneBasicConv_permissive, ShortCut_permissive.
  reflexivity.
Qed.

(** A constructor returns an instance of its own class. *)
Lemma construct_class (fw : Framework) (c : Call) (m : module) :
  construct fw c = Ok m -> exists attrs, m = LBlock (class_of c) attrs.
Proof.
  intros H. apply (agree_Ok_inv _ _ _ (construct_agrees fw c)) in H.
  destruct c; cbn [construct class_of] in H |- *;
    rewrite ?ShortCut_permissive, ?BottleConv_permissive, ?BasicConv_permissive,
      ?SmallInputInitialBlock_permissive, ?InitialBlock_permissive,
      ?BasicBlock_permissive, ?BottleneckBlock_permissive,
      ?PruneBasicBlock_permissive, ?PruneBasicConv_permissive in H;
    rewrite ?BottleConv_permissive, ?BasicConv_permissive,
      ?PruneBasicConv_permissive, ?ShortCut_permissive in H;
    try destruct (bottle_width _ _ _); cbn [mbind result_bind] in H;
    first [discriminate H | injection H as <-; eauto].
Qed.

(* ===================================================================== *)
(** * Shortcuts and residual blocks                                       *)
(* ===================================================================== *)

(** C5: a [ShortCut(inchannel, outchannel, expansion, stride)] holds the
    projection (1x1 convolution from [inchannel] to [outchannel * expansion]
    with the given stride, then a batch norm over [outchannel * expansion]
    features) if and only if [stride != 1] or
    [inchannel != outchannel * expansion]; otherwise it holds no layer at
    all.  Under a framework that rejects a call the constructor raises the
    framework's error instead. *)
Theorem ShortCut_projection_iff (inchannel outchannel expansion stride : Z) :
  exists attrs,
    ShortCut permissive inchannel outchannel expansion stride
      = Ok (LBlock class_ShortCut attrs) /\
    (attrs = projection inchannel outchannel expansion stride
       <-> (stride <> 1 \/ inchannel <> outchannel * expansion)) /\
    (attrs = [] <-> (stride = 1 /\ inchannel = outchannel * expansion)) /\
    (forall fw, agree (ShortCut fw inchannel outchannel expansion stride)
                      (Ok (LBlock class_ShortCut attrs))).
Proof.
  exists (if needs_projection inchannel outchannel expansion stride
          then projection inchannel outchannel expansion stride else []).
  split; [apply ShortCut_permissive |].
  pose proof (needs_projection_spec inchannel outchannel expansion stride) as Ht.
  pose proof (needs_projection_false inchannel outchannel expansion stride) as Hf.
  split; [| split].
  - destruct (needs_projection _ _ _ _).
    + split; [intros _; apply Ht; reflexivity | reflexivity].
    + split; [discriminate | intros H; apply Ht in H; discriminate].
  - destruct (needs_projection _ _ _ _).
    + split; [discriminate | intros H; apply Hf in H; discriminate].
    + split; [intros _; apply Hf; reflexivity | reflexivity].
  - intros fw. rewrite <- ShortCut_permissive. apply ShortCut_agrees.
Qed.

(** C4: [BasicBlock(inchannel, outchannel, groups, base_width, stride)]
    builds exactly a [BasicConv] and a [ShortCut] with expansion 1, stores
    their [Add] in the attribute [block] and follows it with a [Relu]; on an
    input of [inchannel] channels both models of the [Add] produce
    [outchannel] channels. *)
Theorem BasicBlock_composition (inchannel outchannel groups base_width stride : Z) :
  exists base_conv shortcut,
    BasicConv permissive inchannel outchannel groups base_width stride
      = Ok base_conv /\
    ShortCut permissive inchannel outchannel 1 stride = Ok shortcut /\
    BasicBlock permissive inchannel outchannel groups base_width stride
      = Ok (LBlock class_BasicBlock
              [ ("block", LAdd [base_conv; shortcut]); ("relu", LRelu None) ]) /\
    branch_channels (LAdd [base_conv; shortcut]) inchannel
      = [Some outchannel; Some outchannel] /\
    (forall fw,
        agree (BasicBlock fw inchannel outchannel groups base_width stride)
              (Ok (LBlock class_BasicBlock
                     [ ("block", LAdd [base_conv; shortcut]);
                       ("relu", LRelu None) ]))).
Proof.
  pose proof (BasicBlock_permissive inchannel outchannel groups base_width stride) as Hb.
  rewrite BasicConv_permissive in Hb. unfold BasicBlock_expansion in Hb.
  rewrite ShortCut_permissive in Hb. cbn [mbind result_bind] in Hb.
  eexists _, _.
  split; [apply BasicConv_permissive |].
  split; [apply ShortCut_permissive |].
  split; [exact Hb |].
  split.
  - cbn [branch_channels map]. rewrite ShortCut_channels, Z.mul_1_r.
    cbn. rewrite !Z.eqb_refl. reflexivity.
  - intros fw. rewrite <- Hb. apply BasicBlock_agrees.
Qed.

(** C6: [PruneBasicBlock(inchannel, outchannel, innerchannel, stride)] adds
    a [PruneBasicConv] to a [ShortCut] with expansion 1; the [PruneBasicConv]
    maps [inchannel] to [innerchannel] with the given stride and then
    [innerchannel] to [outchannel] with stride 1, and the block produces
    [outchannel] channels whatever [innerchannel] is. *)
Theorem PruneBasicBlock_output_channels (inchannel outchannel innerchannel stride : Z) :
  exists shortcut,
    let conv_block :=
      LBlock class_PruneBasicConv
        [ ("conv1", LConv2d {| in_channels := inchannel;
                               out_channels := innerchannel;
                               kernel_size := 3; stride := Some stride;
                               padding := Some 1; groups := None;
                               bias := false |});
          ("bn1", LBatchNorm2d innerchannel);
          ("relu", LRelu None);
          ("conv2", LConv2d {| in_channels := innerchannel;
                               out_channels := outchannel;
                               kernel_size := 3; stride := Some 1;
                               padding := Some 1; groups := None;
                               bias := false |});
          ("bn2", LBatchNorm2d outchannel);
          ("relu2", LRelu None) ] in
    let block := LAdd [conv_block; shortcut] in
    let built :=
      LBlock class_PruneBasicBlock [ ("block", block); ("relu3", LRelu None) ] in
    ShortCut permissive inchannel outchannel 1 stride = Ok shortcut /\
    PruneBasicConv permissive inchannel outchannel innerchannel stride
      = Ok conv_block /\
    PruneBasicBlock permissive inchannel outchannel innerchannel stride
      = Ok built /\
    branch_channels block inchannel = [Some outchannel; Some outchannel] /\
    channels built inchannel = Some outchannel /\
    (forall fw,
        agree (PruneBasicBlock fw inchannel outchannel innerchannel stride)
              (Ok built)).
Proof.
  pose proof (PruneBasicBlock_permissive inchannel outchannel innerchannel stride) as Hb.
  rewrite PruneBasicConv_permissive in Hb. unfold PruneBasicBlock_expansion in Hb.
  rewrite ShortCut_permissive in Hb. cbn [mbind result_bind] in Hb.
  pose proof (ShortCut_channels inchannel outchannel 1 stride) as Hs.
  rewrite Z.mul_1_r in Hs.
  eexists. cbv zeta.
  split; [apply ShortCut_permissive |].
  split; [apply PruneBasicConv_permissive |].
  split; [exact Hb |].
  split; [| split].
  - cbn [branch_channels map]. rewrite Hs.
    cbn. rewrite !Z.eqb_refl. reflexivity.
  - cbn. rewrite !Z.eqb_refl.
    cbn in Hs. rewrite Hs. rewrite Z.eqb_refl. reflexivity.
  - intros fw. rewrite <- Hb. apply PruneBasicBlock_agrees.
Qed.

(* ===================================================================== *)
(** * The bottleneck block                                                *)
(* ===================================================================== *)

(** Whenever the width expression evaluates to [w], the two models of the
    bottleneck's [Add] produce [w * 4] and [outchannel * 4] channels. *)
Lemma BottleneckBlock_branch_channels (inchannel outchannel groups base_width stride w : Z) :
  bottle_width outchannel groups base_width = Ok w ->
  exists bottle_conv shortcut,
    BottleneckBlock permissive inchannel outchannel groups base_width stride
      = Ok (LBlock class_BottleneckBlock
              [ ("block", LAdd [bottle_conv; shortcut]); ("relu", LRelu None) ]) /\
    branch_channels (LAdd [bottle_conv; shortcut]) inchannel
      = [Some (w * 4); Some (outchannel * 4)].
Proof.
  intros Hw.
  pose proof (BottleneckBlock_permissive inchannel outchannel groups base_width stride) as Hb.
  rewrite BottleConv_permissive, Hw in Hb.
  unfold BottleneckBlock_expansion in Hb.
  rewrite ShortCut_permissive in Hb. cbn [mbind result_bind] in Hb.
  eexists _, _. split; [exact Hb |].
  cbn [branch_channels map]. rewrite ShortCut_channels.
  cbn. rewrite !Z.eqb_refl. reflexivity.
Qed.

(** The two models agree exactly when the width expression gives back
    [outchannel]. *)
Lemma BottleneckBlock_branches_agree_iff (outchannel w : Z) :
  Some (w * 4) = Some (outchannel * 4) <-> w = outchannel.
Proof. split; [intros [= H]; lia | intros ->; reflexivity]. Qed.

(** C3: the two models of the bottleneck's [Add] do not always produce the
    same channel count.  On [BottleneckBlock(64, 64, groups=2)] line 58 rebinds
    [outchannel] to the width 128, so the last convolution of the
    [BottleConv] has 512 output channels while the [ShortCut] has 256, and
    the [Add] has no common channel count. *)
Theorem BottleneckBlock_branches_disagree :
  exists bottle_conv shortcut,
    let built :=
      LBlock class_BottleneckBlock
        [ ("block", LAdd [bottle_conv; shortcut]); ("relu", LRelu None) ] in
    BottleneckBlock permissive 64 64 2 64 1 = Ok built /\
    (out_channels <$> (match getattr bottle_conv "conv3" with
                       | Some (LConv2d kw) => Some kw
                       | _ => None
                       end)) = Some 512 /\
    branch_channels (LAdd [bottle_conv; shortcut]) 64 = [Some 512; Some 256] /\
    channels built 64 = None.
Proof.
  eexists _, _. cbv zeta.
  split; [vm_compute; reflexivity |].
  split; [| split]; vm_compute; reflexivity.
Qed.

(** With [base_width = 64] the rebound width is [outchannel * groups], so
    the [BottleConv] produces [groups] times the channels of the
    [ShortCut]. *)
Lemma BottleneckBlock_base_64_branches (inchannel outchannel groups stride : Z) :
  - 2 ^ 53 < outchannel < 2 ^ 53 ->
  exists bottle_conv shortcut,
    BottleneckBlock permissive inchannel outchannel groups 64 stride
      = Ok (LBlock class_BottleneckBlock
              [ ("block", LAdd [bottle_conv; shortcut]); ("relu", LRelu None) ]) /\
    branch_channels (LAdd [bottle_conv; shortcut]) inchannel
      = [Some (outchannel * groups * 4); Some (outchannel * 4)].
Proof.
  intros Ho. apply BottleneckBlock_branch_channels.
  apply bottle_width_base_64. exact Ho.
Qed.

(** With [groups = 1] and [base_width = 64], the defaults, the block is
    well shaped and produces [outchannel * 4] channels. *)
Lemma BottleneckBlock_defaults_well_shaped (inchannel outchannel stride : Z) :
  - 2 ^ 53 < outchannel < 2 ^ 53 ->
  exists m,
    BottleneckBlock permissive inchannel outchannel 1 64 stride = Ok m /\
    channels m inchannel = Some (outchannel * 4).
Proof.
  intros Ho.
  pose proof (BottleneckBlock_permissive inchannel outchannel 1 64 stride) as Hb.
  rewrite BottleConv_permissive, (bottle_width_base_64 outchannel 1 Ho) in Hb.
  unfold BottleneckBlock_expansion in Hb.
  rewrite ShortCut_permissive in Hb. cbn [mbind result_bind] in Hb.
  eexists. split; [exact Hb |].
  pose proof (ShortCut_channels inchannel outchannel 4 stride) as Hs.
  rewrite Z.mul_1_r. cbn. rewrite !Z.eqb_refl.
  cbn in Hs. rewrite Hs. rewrite Z.eqb_refl. reflexivity.
Qed.

Example BottleneckBlock_defaults_agree :
  (fun m => channels m 64) <$> BottleneckBlock permissive 64 64 1 64 1
  = Ok (Some 256).
Proof. vm_compute. reflexivity. Qed.

(* ===================================================================== *)
(** * Batch norms follow their convolution                                *)
(* ===================================================================== *)

Lemma construct_permissive_norms_match (c : Call) (m : module) :
  construct permissive c = Ok m -> norms_match m = true.
Proof.
  destruct c; cbn [construct].
  - rewrite ShortCut_permissive. intros [= <-].
    destruct (needs_projection _ _ _ _); cbn; rewrite ?Z.eqb_refl; reflexivity.
  - rewrite BottleConv_permissive.
    destruct (bottle_width _ _ _) as [w | x]; [| discriminate].
    intros [= <-]. cbn. rewrite !Z.eqb_refl. reflexivity.
  - rewrite BasicConv_permissive. intros [= <-].
    cbn. rewrite !Z.eqb_refl. reflexivity.
  - rewrite SmallInputInitialBlock_permissive. intros [= <-].
    cbn. rewrite !Z.eqb_refl. reflexivity.
  - rewrite InitialBlock_permissive. intros [= <-].
    cbn. rewrite !Z.eqb_refl. reflexivity.
  - rewrite BasicBlock_permissive, BasicConv_permissive, ShortCut_permissive.
    intros [= <-].
    destruct (needs_projection _ _ _ _); cbn; rewrite ?Z.eqb_refl; reflexivity.
  - rewrite BottleneckBlock_permissive, BottleConv_permissive, ShortCut_permissive.
    destruct (bottle_width _ _ _) as [w | x]; [| discriminate].
    intros [= <-].
    destruct (needs_projection _ _ _ _); cbn; rewrite ?Z.eqb_refl; reflexivity.
  - rewrite PruneBasicBlock_permissive, PruneBasicConv_permissive, ShortCut_permissive.
    intros [= <-].
    destruct (needs_projection _ _ _ _); cbn; rewrite ?Z.eqb_refl; reflexivity.
  - rewrite PruneBasicConv_permissive. intros [= <-].
    cbn. rewrite !Z.eqb_refl. reflexivity.
Qed.

(** C7: in every module a block constructor of [blocks.py] returns, for all
    constructor arguments and whatever framework runs underneath, each
    [BatchNorm2d] directly follows a [Conv2d] of the same constructor whose
    [out_channels] equals the norm's [num_features]. *)
Theorem norms_match_constructed (fw : Framework) (c : Call) (m : module) :
  construct fw c = Ok m -> norms_match m = true.
Proof.
  intros H. apply (construct_permissive_norms_match c).
  exact (agree_Ok_inv _ _ _ (construct_agrees fw c) H).
Qed.

Lemma norms_match_constructed_witness :
  norms_match
    (LBlock class_ShortCut (projection 64 64 4 1)) = true.
Proof.
  apply (norms_match_constructed permissive (new_ShortCut 64 64 4 1)).
  reflexivity.
Defined.

(** The check is not vacuous: it rejects a norm over the wrong width. *)
Example norms_match_rejects :
  norms_match
    (LBlock class_ShortCut
       [ ("conv1", LConv2d {| in_channels := 3; out_channels := 8;
                              kernel_size := 1; stride := None;
                              padding := None; groups := None;
                              bias := false |});
         ("batch", LBatchNorm2d 16) ]) = false.
Proof. reflexivity. Qed.

(* ===================================================================== *)
(** * Where exceptions come from                                          *)
(* ===================================================================== *)

Lemma construct_permissive_raise (c : Call) (e : exn) :
  construct permissive c = Raise e ->
  exists o g b, width_request c = Some (o, g, b) /\ bottle_width o g b = Raise e.
Proof.
  destruct c; cbn [construct width_request].
  - rewrite ShortCut_permissive. discriminate.
  - rewrite BottleConv_permissive.
    destruct (bottle_width _ _ _) as [w | x] eqn:Hw; [discriminate |].
    intros [= <-]. eauto.
  - rewrite BasicConv_permissive. discriminate.
  - rewrite SmallInputInitialBlock_permissive. discriminate.
  - rewrite InitialBlock_permissive. discriminate.
  - rewrite BasicBlock_permissive, BasicConv_permissive, ShortCut_permissive.
    discriminate.
  - rewrite BottleneckBlock_permissive, BottleConv_permissive, ShortCut_permissive.
    destruct (bottle_width _ _ _) as [w | x] eqn:Hw; [discriminate |].
    intros [= <-]. eauto.
  - rewrite PruneBasicBlock_permissive, PruneBasicConv_permissive, ShortCut_permissive.
    discriminate.
  - rewrite PruneBasicConv_permissive. discriminate.
Qed.

(** The width expression raises for operands outside the float range. *)
Example bottle_width_int_too_large :
  bottle_width (2 ^ 1024) 1 64
  = Raise (OverflowError "int too large to convert to float").
Proof. vm_compute. reflexivity. Qed.

Example bottle_width_product_infinite :
  bottle_width (2 ^ 600) 1 (2 ^ 600)
  = Raise (OverflowError "cannot convert float infinity to integer").
Proof. vm_compute. reflexivity. Qed.

Example bottle_width_in_range :
  bottle_width 64 1 64 = Ok 64 /\ bottle_width 64 32 4 = Ok 128 /\
  bottle_width 100 1 100 = Ok 156.
Proof. vm_compute. repeat split. Qed.

Lemma run_import_cases (imp : quant.Importer) (i : quant.Import) :
  quant.run_import imp i = Ok i \/
  quant.run_import imp i = Raise (ImportError (quant.target i)).
Proof. unfold quant.run_import. destruct (imp _); auto. Qed.




(** The call of line 3 runs only after the import of line 1: when that
    import fails the package raises the import's error, whatever the call
    would have done. *)
Lemma quant_import_precedes_call (imp : quant.Importer)
    (is_tf_backend : unit -> result bool) :
  imp "zeus" = false ->
  quant.__init__ imp is_tf_backend = Raise (ImportError "zeus").
Proof. intros H. unfold quant.__init__, quant.run_import. cbn. rewrite H. reflexivity. Qed.

(** A call that raises stops the package before either operator set is
    imported. *)
Lemma quant_call_raises (is_tf_backend : unit -> result bool) (x : exn) :
  is_tf_backend tt = Raise x ->
  quant.__init__ quant.finds_all is_tf_backend = Raise x.
Proof. intros H. unfold quant.__init__. cbn. rewrite H. reflexivity. Qed.

(** When every call is accepted, only the width expression can stop a
    constructor, and it does not for operands below [2 ^ 500] in
    magnitude. *)
Lemma construct_returns (c : Call) :
  (forall o g b, width_request c = Some (o, g, b) ->
                 - 2 ^ 500 < o < 2 ^ 500 /\ - 2 ^ 500 < b < 2 ^ 500) ->
  exists m, construct permissive c = Ok m.
Proof.
  intros Hw. destruct (construct permissive c) as [m | e] eqn:E; [eauto |].
  apply construct_permissive_raise in E as (o & g & b & Hreq & Hraise).
  destruct (Hw o g b Hreq) as [Ho Hb].
  destruct (bottle_width_returns o g b Ho Hb) as [w Hok]. congruence.
Qed.

(* ===================================================================== *)
(** * The initial blocks                                                  *)
(* ===================================================================== *)

Lemma window_out_same (h : Z) : window_out h 3 1 1 = h.
Proof. unfold window_out. rewrite Z.div_1_r. lia. Qed.

Lemma window_out_stem (h : Z) :
  window_out (window_out h 7 2 3) 3 2 1 = (h - 1) / 2 / 2 + 1.
Proof.
  unfold window_out. f_equal. f_equal.
  replace (h + 2 * 3 - 7) with (h - 1) by lia. lia.
Qed.

Lemma stem_quarter (h : Z) : 4 * ((h - 1) / 2 / 2 + 1) <= h + 3.
Proof.
  pose proof (Z.mul_div_le ((h - 1) / 2) 2 ltac:(lia)).
  pose proof (Z.mul_div_le (h - 1) 2 ltac:(lia)).
  lia.
Qed.

(** From two pixels on, the stem strictly shrinks its input. *)
Lemma InitialBlock_downsamples (init_plane h : Z) (m : module) :
  InitialBlock permissive init_plane = Ok m -> 2 <= h -> spatial m h < h.
Proof.
  rewrite InitialBlock_permissive. intros [= <-] Hh.
  cbn. rewrite window_out_stem. pose proof (stem_quarter h). lia.
Qed.

(** C9: for every [init_plane] both initial blocks build their first
    convolution with [in_channels = 3] and [out_channels = init_plane].
    [InitialBlock] is a 7x7 convolution with stride 2, a batch norm and a 3x3
    max-pool with stride 2, which brings a side of [h] down to at most
    [(h + 3) / 4]; [SmallInputInitialBlock] is a 3x3 convolution with stride 1
    and padding 1, a batch norm and a relu, without pooling, and keeps every
    side. *)
Theorem initial_blocks_take_three_channels (init_plane : Z) :
  let small :=
    LBlock class_SmallInputInitialBlock
      [ ("conv", LConv2d {| in_channels := 3; out_channels := init_plane;
                            kernel_size := 3; stride := Some 1;
                            padding := Some 1; groups := None;
                            bias := false |});
        ("bn", LBatchNorm2d init_plane);
        ("relu", LRelu None) ] in
  let stem :=
    LBlock class_InitialBlock
      [ ("conv", LConv2d {| in_channels := 3; out_channels := init_plane;
                            kernel_size := 7; stride := Some 2;
                            padding := Some 3; groups := None;
                            bias := false |});
        ("batch", LBatchNorm2d init_plane);
        ("maxpool2d", LMaxPool2d 3 2 1) ] in
  SmallInputInitialBlock permissive init_plane = Ok small /\
  InitialBlock permissive init_plane = Ok stem /\
  (forall fw, agree (SmallInputInitialBlock fw init_plane) (Ok small)) /\
  (forall fw, agree (InitialBlock fw init_plane) (Ok stem)) /\
  channels small 3 = Some init_plane /\
  channels stem 3 = Some init_plane /\
  existsb is_pool (children small) = false /\
  (forall h, spatial small h = h) /\
  (forall h, 4 * spatial stem h <= h + 3).
Proof.
  cbv zeta.
  split; [apply SmallInputInitialBlock_permissive |].
  split; [apply InitialBlock_permissive |].
  split; [intros fw; rewrite <- SmallInputInitialBlock_permissive;
          apply SmallInputInitialBlock_agrees |].
  split; [intros fw; rewrite <- InitialBlock_permissive;
          apply InitialBlock_agrees |].
  split; [cbn; rewrite Z.eqb_refl; reflexivity |].
  split; [cbn; rewrite Z.eqb_refl; reflexivity |].
  split; [reflexivity |].
  split.
  - intros h. cbn. apply window_out_same.
  - intros h. cbn. rewrite window_out_stem. apply stem_quarter.
Qed.


(* ===================================================================== *)
(** * The quantization backend                                            *)
(* ===================================================================== *)

(** C2: importing the quantization package imports the TensorFlow operators
    if and only if [is_tf_backend()] returns true and the PyTorch operators
    in every other case; exactly one of the two star-imports runs. *)
Theorem quant_backend_selection (is_tf_backend : bool) :
  exists trace,
    quant.__init__ quant.finds_all (fun _ => Ok is_tf_backend) = Ok trace /\
    (In quant.tensorflow_quant trace <-> is_tf_backend = true) /\
    (In quant.pytroch_quant trace <-> is_tf_backend <> true) /\
    quant.star_imports trace
      = [if is_tf_backend then quant.tensorflow_quant else quant.pytroch_quant] /\
    (forall imp,
        quant.__init__ imp (fun _ => Ok is_tf_backend) = Ok trace \/
        exists t,
          quant.__init__ imp (fun _ => Ok is_tf_backend) = Raise (ImportError t)).
Proof.
  exists [quant.from_import "zeus" "is_tf_backend";
          if is_tf_backend then quant.tensorflow_quant else quant.pytroch_quant].
  split; [destruct is_tf_backend; reflexivity |].
  split; [| split; [| split]].
  - destruct is_tf_backend; cbn; split;
      solve [ tauto | congruence | intros [H | [H | []]]; discriminate H ].
  - destruct is_tf_backend; cbn; split;
      solve [ tauto | congruence | intros [H | [H | []]]; discriminate H ].
  - destruct is_tf_backend; reflexivity.
  - intros imp. unfold quant.__init__.
    destruct (run_import_cases imp (quant.from_import "zeus" "is_tf_backend"))
      as [-> | ->]; cbn; [| right; eauto].
    destruct is_tf_backend.
    + destruct (run_import_cases imp quant.tensorflow_quant) as [-> | ->];
        cbn; [left; reflexivity | right; eauto].
    + destruct (run_import_cases imp quant.pytroch_quant) as [-> | ->];
        cbn; [left; reflexivity | right; eauto].
Qed.

(* ===================================================================== *)
(** * Registration at import                                              *)
(* ===================================================================== *)

Lemma decorators_cover :
  map snd decorators = defined_classes /\
  Forall (fun d => fst d = SEARCH_SPACE) decorators.
Proof. split; [reflexivity | repeat constructor]. Qed.

Lemma name_injective (c c' : BlockClass) : __name__ c = __name__ c' -> c = c'.
Proof. destruct c, c'; cbn; intros H; first [reflexivity | discriminate H]. Qed.

Lemma import_blocks_lookup (r : Registry) (c : BlockClass) :
  import_blocks r !! (SEARCH_SPACE, __name__ c) = Some (block_class c).
Proof.
  unfold import_blocks, decorators, register. cbn [fold_left fst snd].
  destruct c; cbn [__name__]; simplify_map_eq; reflexivity.
Qed.

(** Importing the module leaves every other entry of the registry alone. *)
Lemma import_blocks_frame (r : Registry) (t : ClassType) (name : string) :
  (forall c, (t, name) <> (SEARCH_SPACE, __name__ c)) ->
  import_blocks r !! (t, name) = r !! (t, name).
Proof.
  intros H. unfold import_blocks, decorators, register. cbn [fold_left fst snd].
  rewrite !lookup_insert_ne; [reflexivity | ..];
    intros E; symmetry in E; revert E;
    first [ apply (H class_ShortCut) | apply (H class_BottleConv)
          | apply (H class_BasicConv) | apply (H class_SmallInputInitialBlock)
          | apply (H class_InitialBlock) | apply (H class_BasicBlock)
          | apply (H class_BottleneckBlock) | apply (H class_PruneBasicBlock)
          | apply (H class_PruneBasicConv) ].
Qed.

(** C1: after [blocks.py] has been imported, whatever the registry held
    before, each of the nine class names resolves under
    [ClassType.SEARCH_SPACE] to the class of that name. *)
Theorem import_blocks_registers (r : Registry) :
  (forall c : BlockClass,
      get_cls SEARCH_SPACE (__name__ c) (import_blocks r) = Some (block_class c)) /\
  Forall (fun name => is_exists SEARCH_SPACE name (import_blocks r) = true)
    [ "ShortCut"; "BottleConv"; "BasicConv"; "SmallInputInitialBlock";
      "InitialBlock"; "BasicBlock"; "BottleneckBlock"; "PruneBasicBlock";
      "PruneBasicConv" ]%string.
Proof.
  split.
  - intros c. apply import_blocks_lookup.
  - assert (H : forall c, is_exists SEARCH_SPACE (__name__ c) (import_blocks r) = true).
    { intros c. unfold is_exists. apply bool_decide_eq_true.
      rewrite import_blocks_lookup. eauto. }
    repeat constructor;
      [ apply (H class_ShortCut) | apply (H class_BottleConv)
      | apply (H class_BasicConv) | apply (H class_SmallInputInitialBlock)
      | apply (H class_InitialBlock) | apply (H class_BasicBlock)
      | apply (H class_BottleneckBlock) | apply (H class_PruneBasicBlock)
      | apply (H class_PruneBasicConv) ].
Qed.

(* ===================================================================== *)
(** * The width expression as integer arithmetic                          *)
(* ===================================================================== *)

(** A mantissa of at most 53 bits followed by enough zero bits rounds to
    its own leading 53 bits. *)
Lemma binary_round_aux_padded (sx : bool) (P : positive) (K ex : Z) :
  Z.pos P < 2 ^ 53 ->
  53 - Z.pos (digits2_pos P) <= K ->
  -1074 <= ex + K - (53 - Z.pos (digits2_pos P)) <= 971 ->
  exists m,
    Z.pos m = Z.pos P * 2 ^ (53 - Z.pos (digits2_pos P)) /\
    binary_round_aux prec emax sx (Z.pos P * 2 ^ K) ex loc_Exact
      = S754_finite sx m (ex + K - (53 - Z.pos (digits2_pos P))).
Proof.
  intros HP HK He. set (d := Z.pos (digits2_pos P)) in *.
  assert (Hd : 1 <= d <= 53).
  { split; [unfold d; lia |]. apply digits_below; lia. }
  assert (Hpos : 0 < Z.pos P * 2 ^ (53 - d)).
  { apply Z.mul_pos_pos; [lia | apply Z.pow_pos_nonneg; lia]. }
  exists (Z.to_pos (Z.pos P * 2 ^ (53 - d))).
  rewrite Z2Pos.id by exact Hpos. split; [reflexivity |].
  assert (Hm : Z.pos (digits2_pos (Z.to_pos (Z.pos P * 2 ^ (53 - d)))) = 53).
  { change (Z.pos (digits2_pos ?q)) with (Zdigits2 (Z.pos q)).
    rewrite Z2Pos.id by exact Hpos.
    rewrite Zdigits2_mul_pow2 by lia. cbn [Zdigits2]. fold d. lia. }
  pose proof (binary_round_aux_exact sx _ (K - (53 - d)) ex Hm
                ltac:(lia) ltac:(lia)) as H.
  rewrite Z2Pos.id in H by exact Hpos.
  rewrite <- Z.mul_assoc, <- Z.pow_add_r in H by lia.
  replace (53 - d + (K - (53 - d))) with K in H by lia.
  rewrite H.
  replace (ex + (K - (53 - d)) <=? 971) with true
    by (symmetry; apply Z.leb_le; lia).
  f_equal. lia.
Qed.

Lemma digits_of_product (p q : positive) :
  Z.pos (digits2_pos p) + Z.pos (digits2_pos q) - 1
    <= Z.pos (digits2_pos (p * q)).
Proof.
  change (Z.pos (digits2_pos ?x)) with (Zdigits2 (Z.pos x)).
  rewrite !Zdigits2_log2, Pos2Z.inj_mul by lia.
  pose proof (Z.log2_mul_below (Z.pos p) (Z.pos q) ltac:(lia) ltac:(lia)). lia.
Qed.

(** The float product of an exactly converted integer and an exactly
    converted integer over 64, read back as an integer. *)
Lemma small_product (sx sy : bool) (mx my po pb : positive) (kx ky : Z) :
  Z.pos (po * pb) < 2 ^ 53 ->
  0 <= kx -> 0 <= ky ->
  Z.pos mx = Z.pos po * 2 ^ kx -> Z.pos my = Z.pos pb * 2 ^ ky ->
  Z.pos (digits2_pos mx) = 53 -> Z.pos (digits2_pos my) = 53 ->
  int_of_float
    (SFmul prec emax (S754_finite sx mx (- kx)) (S754_finite sy my (- ky - 6)))
  = Ok (if xorb sx sy then - (Z.pos (po * pb) / 64) else Z.pos (po * pb) / 64).
Proof.
  intros HP Hkx Hky Ex Ey Dx Dy. cbn [SFmul].
  assert (Hdx : Z.pos (digits2_pos po) + kx = 53).
  { rewrite <- Dx. change (Z.pos (digits2_pos ?x)) with (Zdigits2 (Z.pos x)).
    rewrite Ex, Zdigits2_mul_pow2 by lia. reflexivity. }
  assert (Hdy : Z.pos (digits2_pos pb) + ky = 53).
  { rewrite <- Dy. change (Z.pos (digits2_pos ?x)) with (Zdigits2 (Z.pos x)).
    rewrite Ey, Zdigits2_mul_pow2 by lia. reflexivity. }
  pose proof (digits_of_product po pb) as Hd.
  set (d := Z.pos (digits2_pos (po * pb))) in *.
  assert (Hd53 : 1 <= d <= 53).
  { split; [unfold d; lia |]. apply digits_below; lia. }
  replace (Z.pos (mx * my)) with (Z.pos (po * pb) * 2 ^ (kx + ky)).
  2:{ rewrite (Pos2Z.inj_mul mx), Ex, Ey, Pos2Z.inj_mul, Z.pow_add_r by lia. ring. }
  destruct (binary_round_aux_padded (xorb sx sy) (po * pb) (kx + ky)
              (- kx + (- ky - 6)) HP ltac:(fold d; lia) ltac:(fold d; lia))
    as (m & Hm & ->).
  fold d in Hm |- *. cbn [int_of_float].
  replace (- kx + (- ky - 6) + (kx + ky) - (53 - d)) with (d - 59) by lia.
  replace (0 <=? d - 59) with false by (symmetry; apply Z.leb_gt; lia).
  replace (- (d - 59)) with (6 + (53 - d)) by lia.
  rewrite Hm, Z.pow_add_r by lia.
  rewrite Z.div_mul_cancel_r by (try apply Z.pow_nonzero; lia).
  reflexivity.
Qed.

Lemma float_of_int_small (s : bool) (p : positive) :
  Z.pos p < 2 ^ 53 ->
  exists m k,
    0 <= k <= 52 /\ Z.pos m = Z.pos p * 2 ^ k /\ Z.pos (digits2_pos m) = 53 /\
    float_of_int (if s then Z.neg p else Z.pos p) = Ok (S754_finite s m (- k)).
Proof.
  intros Hp.
  destruct (binary_round_small s p Hp) as (m & k & Hk & Hmk & Hm & H).
  exists m, k. repeat (split; [assumption |]).
  unfold float_of_int, binary_normalize. destruct s; rewrite H; reflexivity.
Qed.

Lemma width_of_signs (so sb : bool) (po pb : positive) :
  Z.pos (po * pb) < 2 ^ 53 ->
  (q ← int_truediv_float (if sb then Z.neg pb else Z.pos pb) float_64;
   p ← int_mul_float (if so then Z.neg po else Z.pos po) q;
   int_of_float p)
  = Ok (if xorb so sb then - (Z.pos (po * pb) / 64) else Z.pos (po * pb) / 64).
Proof.
  intros HP.
  assert (Hpo : Z.pos po < 2 ^ 53) by (rewrite Pos2Z.inj_mul in HP; nia).
  assert (Hpb : Z.pos pb < 2 ^ 53) by (rewrite Pos2Z.inj_mul in HP; nia).
  destruct (float_of_int_small sb pb Hpb) as (mb & kb & Hkb & Hmb & Db & Fb).
  destruct (float_of_int_small so po Hpo) as (mo & ko & Hko & Hmo & Do & Fo).
  unfold int_truediv_float, int_mul_float. rewrite Fb, Fo.
  cbn [mbind result_bind mret result_ret].
  rewrite (SFdiv_64 sb mb (- kb) Db) by lia.
  apply (small_product so sb mo mb po pb ko kb); (assumption || lia).
Qed.

Lemma width_of_zero_base (outchannel : Z) :
  - 2 ^ 53 < outchannel < 2 ^ 53 ->
  (q ← int_truediv_float 0 float_64;
   p ← int_mul_float outchannel q;
   int_of_float p) = Ok 0.
Proof.
  intros Ho. destruct outchannel as [| po | po]; [reflexivity | |].
  - destruct (float_of_int_small false po ltac:(lia)) as (m & k & _ & _ & _ & F).
    unfold int_mul_float. cbn [int_truediv_float float_of_int binary_normalize
      mbind result_bind mret result_ret SFdiv float_64].
    cbn [float_of_int] in F |- *. rewrite F. reflexivity.
  - destruct (float_of_int_small true po ltac:(lia)) as (m & k & _ & _ & _ & F).
    unfold int_mul_float. cbn [int_truediv_float float_of_int binary_normalize
      mbind result_bind mret result_ret SFdiv float_64].
    cbn [float_of_int] in F |- *. rewrite F. reflexivity.
Qed.

Lemma width_of_zero_outchannel (base_width : Z) :
  - 2 ^ 53 < base_width < 2 ^ 53 ->
  (q ← int_truediv_float base_width float_64;
   p ← int_mul_float 0 q;
   int_of_float p) = Ok 0.
Proof.
  intros Hb. destruct base_width as [| pb | pb]; [reflexivity | |].
  - destruct (float_of_int_small false pb ltac:(lia)) as (m & k & Hk & _ & D & F).
    unfold int_truediv_float. cbn [float_of_int] in F |- *. rewrite F.
    cbn [mbind result_bind mret result_ret].
    rewrite (SFdiv_64 false m (- k) D) by lia. reflexivity.
  - destruct (float_of_int_small true pb ltac:(lia)) as (m & k & Hk & _ & D & F).
    unfold int_truediv_float. cbn [float_of_int] in F |- *. rewrite F.
    cbn [mbind result_bind mret result_ret].
    rewrite (SFdiv_64 true m (- k) D) by lia. reflexivity.
Qed.

(** What [int(outchannel * (base_width / 64.))] evaluates to while both
    operands and their product stay below [2 ^ 53] in magnitude. *)
Lemma width_expression_quot (outchannel base_width : Z) :
  - 2 ^ 53 < outchannel < 2 ^ 53 ->
  - 2 ^ 53 < base_width < 2 ^ 53 ->
  - 2 ^ 53 < outchannel * base_width < 2 ^ 53 ->
  (q ← int_truediv_float base_width float_64;
   p ← int_mul_float outchannel q;
   int_of_float p) = Ok (Z.quot (outchannel * base_width) 64).
Proof.
  intros Ho Hb H.
  destruct base_width as [| pb | pb].
  - rewrite Z.mul_0_r. apply width_of_zero_base. exact Ho.
  - destruct outchannel as [| po | po].
    + apply width_of_zero_outchannel. exact Hb.
    + rewrite (width_of_signs false false po pb) by lia. cbn [xorb].
      rewrite Z.quot_div_nonneg by lia. reflexivity.
    + rewrite (width_of_signs true false po pb) by lia. cbn [xorb].
      change (Z.neg po * Z.pos pb) with (- Z.pos (po * pb)).
      rewrite Z.quot_opp_l, Z.quot_div_nonneg by lia. reflexivity.
  - destruct outchannel as [| po | po].
    + apply width_of_zero_outchannel. exact Hb.
    + rewrite (width_of_signs false true po pb) by lia. cbn [xorb].
      change (Z.pos po * Z.neg pb) with (- Z.pos (po * pb)).
      rewrite Z.quot_opp_l, Z.quot_div_nonneg by lia. reflexivity.
    + rewrite (width_of_signs true true po pb) by lia. cbn [xorb].
      change (Z.neg po * Z.neg pb) with (Z.pos (po * pb)).
      rewrite Z.quot_div_nonneg by lia. reflexivity.
Qed.

Lemma bottle_width_quot (outchannel groups base_width : Z) :
  - 2 ^ 53 < outchannel < 2 ^ 53 ->
  - 2 ^ 53 < base_width < 2 ^ 53 ->
  - 2 ^ 53 < outchannel * base_width < 2 ^ 53 ->
  bottle_width outchannel groups base_width
    = Ok (Z.quot (outchannel * base_width) 64 * groups).
Proof.
  intros Ho Hb H. pose proof (width_expression_quot _ _ Ho Hb H) as W.
  unfold bottle_width.
  destruct (int_truediv_float base_width float_64) as [q | x];
    cbn [mbind result_bind] in W |- *; [| discriminate W].
  destruct (int_mul_float outchannel q) as [p | x];
    cbn [mbind result_bind] in W |- *; [| discriminate W].
  rewrite W. reflexivity.
Qed.

Example bottle_width_resnext : bottle_width 64 32 4 = Ok 128.
Proof. rewrite bottle_width_quot by (cbn; lia). reflexivity. Qed.

(** X1: while [outchannel], [base_width] and their product stay below
    [2 ^ 53] in magnitude, the width line 58 computes is
    [outchannel * base_width] divided by 64, truncated toward zero, times
    [groups]. *)
Theorem width_is_truncated_quotient (outchannel groups base_width : Z) :
  - 2 ^ 53 < outchannel < 2 ^ 53 ->
  - 2 ^ 53 < base_width < 2 ^ 53 ->
  - 2 ^ 53 < outchannel * base_width < 2 ^ 53 ->
  bottle_width outchannel groups base_width
    = Ok (Z.quot (outchannel * base_width) 64 * groups).
Proof. apply bottle_width_quot. Qed.

Lemma width_is_truncated_quotient_witness :
  bottle_width (-100) 32 4 = Ok (Z.quot (-100 * 4) 64 * 32).
Proof. apply width_is_truncated_quotient; cbn; lia. Defined.

(** X2: for operands below [2 ^ 500] in magnitude the width expression
    stays inside the float range and returns an integer. *)
Theorem width_returns_in_range (outchannel groups base_width : Z) :
  - 2 ^ 500 < outchannel < 2 ^ 500 ->
  - 2 ^ 500 < base_width < 2 ^ 500 ->
  exists w, bottle_width outchannel groups base_width = Ok w.
Proof. apply bottle_width_returns. Qed.

Lemma width_returns_in_range_witness :
  exists w, bottle_width (2 ^ 400 + 1) 3 (2 ^ 300) = Ok w.
Proof. apply width_returns_in_range; cbn; lia. Defined.

Lemma BottleneckBlock_channels_of_width (i o g b s w : Z) :
  bottle_width o g b = Ok w ->
  exists m,
    BottleneckBlock permissive i o g b s = Ok m /\
    channels m i = if w =? o then Some (o * 4) else None.
Proof.
  intros Hw.
  pose proof (BottleneckBlock_permissive i o g b s) as Hb.
  rewrite BottleConv_permissive, Hw in Hb.
  unfold BottleneckBlock_expansion in Hb.
  rewrite ShortCut_permissive in Hb. cbn [mbind result_bind] in Hb.
  eexists. split; [exact Hb |].
  pose proof (ShortCut_channels i o 4 s) as Hs.
  cbn. rewrite !Z.eqb_refl. cbn in Hs. rewrite Hs.
  destruct (w =? o) eqn:E.
  - apply Z.eqb_eq in E. subst w. rewrite Z.eqb_refl. reflexivity.
  - apply Z.eqb_neq in E.
    replace (w * 4 =? o * 4) with false by (symmetry; apply Z.eqb_neq; lia).
    reflexivity.
Qed.

(** X3: whatever framework runs underneath, a [BottleneckBlock] that was
    built is well shaped on [inchannel] channels, and then produces
    [outchannel * 4], exactly when the width line 58 computed equals
    [outchannel]; for any other width its [Add] has no common channel
    count. *)
Theorem BottleneckBlock_well_shaped_iff
    (fw : Framework) (inchannel outchannel groups base_width stride : Z)
    (m : module) :
  BottleneckBlock fw inchannel outchannel groups base_width stride = Ok m ->
  exists w,
    bottle_width outchannel groups base_width = Ok w /\
    (channels m inchannel = Some (outchannel * 4) <-> w = outchannel) /\
    (channels m inchannel = None <-> w <> outchannel).
Proof.
  intros H.
  apply (agree_Ok_inv _ _ _ (BottleneckBlock_agrees fw _ _ _ _ _)) in H.
  destruct (bottle_width outchannel groups base_width) as [w | x] eqn:Hw.
  - destruct (BottleneckBlock_channels_of_width inchannel _ _ _ stride w Hw)
      as (m' & Hm' & Hc).
    rewrite Hm' in H. injection H as <-.
    exists w. split; [reflexivity |]. rewrite Hc.
    destruct (w =? outchannel) eqn:E.
    + apply Z.eqb_eq in E. split; split; (congruence || discriminate || tauto).
    + apply Z.eqb_neq in E. split; split; (congruence || discriminate || tauto).
  - rewrite BottleneckBlock_permissive, BottleConv_permissive, Hw in H.
    discriminate H.
Qed.

Lemma BottleneckBlock_well_shaped_iff_witness :
  exists m w,
    BottleneckBlock permissive 256 64 32 4 1 = Ok m /\
    bottle_width 64 32 4 = Ok w /\
    (channels m 256 = Some (64 * 4) <-> w = 64) /\
    (channels m 256 = None <-> w <> 64).
Proof.
  destruct (BottleneckBlock permissive 256 64 32 4 1) as [m | x] eqn:E;
    [| vm_compute in E; discriminate E].
  destruct (BottleneckBlock_well_shaped_iff permissive 256 64 32 4 1 m E)
    as (w & Hw & H1 & H2).
  exists m, w. repeat split; first [assumption | apply H1 | apply H2].
Defined.

(** X4: with the default [base_width = 64] and [outchannel] below [2 ^ 53]
    in magnitude, a [BottleneckBlock] that was built is well shaped exactly
    when [groups] is 1 or [outchannel] is 0. *)
Theorem BottleneckBlock_base_64_needs_one_group
    (fw : Framework) (inchannel outchannel groups stride : Z) (m : module) :
  - 2 ^ 53 < outchannel < 2 ^ 53 ->
  BottleneckBlock fw inchannel outchannel groups 64 stride = Ok m ->
  (channels m inchannel = Some (outchannel * 4)
     <-> (groups = 1 \/ outchannel = 0)) /\
  (channels m inchannel = None <-> (groups <> 1 /\ outchannel <> 0)).
Proof.
  intros Ho H.
  apply (agree_Ok_inv _ _ _ (BottleneckBlock_agrees fw _ _ _ _ _)) in H.
  pose proof (bottle_width_base_64 outchannel groups Ho) as Hw.
  destruct (BottleneckBlock_channels_of_width inchannel _ _ _ stride _ Hw)
    as (m' & Hm' & Hc).
  rewrite Hm' in H. injection H as <-. rewrite Hc.
  destruct (outchannel * groups =? outchannel) eqn:E.
  - apply Z.eqb_eq in E.
    assert (groups = 1 \/ outchannel = 0) by nia.
    split; split; first [discriminate | tauto | intros _; reflexivity].
  - apply Z.eqb_neq in E.
    assert (groups <> 1 /\ outchannel <> 0) by (split; intros ->; lia).
    split; split; first [discriminate | tauto | intros _; reflexivity].
Qed.

Lemma BottleneckBlock_base_64_needs_one_group_witness :
  exists m,
    BottleneckBlock permissive 64 64 2 64 1 = Ok m /\
    (channels m 64 = Some (64 * 4) <-> (2 = 1 \/ 64 = 0)) /\
    (channels m 64 = None <-> (2 <> 1 /\ 64 <> 0)).
Proof.
  destruct (BottleneckBlock permissive 64 64 2 64 1) as [m | x] eqn:E;
    [| vm_compute in E; discriminate E].
  exists m. split; [reflexivity |].
  apply (BottleneckBlock_base_64_needs_one_group permissive 64 64 2 1 m);
    [cbn; lia | exact E].
Defined.

(** X5: a [ShortCut] that was built hands on [outchannel * expansion]
    channels when fed [inchannel] channels, with or without its
    projection. *)
Theorem ShortCut_output_channels
    (fw : Framework) (inchannel outchannel expansion stride : Z) (m : module) :
  ShortCut fw inchannel outchannel expansion stride = Ok m ->
  channels m inchannel = Some (outchannel * expansion).
Proof.
  intros H.
  apply (agree_Ok_inv _ _ _ (ShortCut_agrees fw _ _ _ _)) in H.
  rewrite ShortCut_permissive in H. injection H as <-.
  apply ShortCut_channels.
Qed.

Lemma ShortCut_output_channels_witness :
  channels (LBlock class_ShortCut []) 256 = Some (64 * 4).
Proof.
  apply (ShortCut_output_channels permissive 256 64 4 1). reflexivity.
Defined.

(** X6: a [BottleConv] that was built is a consistent chain: every layer
    receives the channel count the layer before it produces, and on
    [inchannel] channels the chain produces the width of line 58 times
    [expansion], not the [outchannel] it was called with. *)
Theorem BottleConv_output_channels
    (fw : Framework) (inchannel outchannel expansion groups base_width stride : Z)
    (m : module) :
  BottleConv fw inchannel outchannel expansion groups base_width stride = Ok m ->
  exists w,
    bottle_width outchannel groups base_width = Ok w /\
    channels m inchannel = Some (w * expansion).
Proof.
  intros H.
  apply (agree_Ok_inv _ _ _ (BottleConv_agrees fw _ _ _ _ _ _)) in H.
  rewrite BottleConv_permissive in H.
  destruct (bottle_width outchannel groups base_width) as [w | x];
    [| discriminate H].
  injection H as <-. exists w. split; [reflexivity |].
  cbn. rewrite !Z.eqb_refl. reflexivity.
Qed.

Lemma BottleConv_output_channels_witness :
  exists m w,
    BottleConv permissive 256 64 4 32 4 1 = Ok m /\
    bottle_width 64 32 4 = Ok w /\ channels m 256 = Some (w * 4).
Proof.
  destruct (BottleConv permissive 256 64 4 32 4 1) as [m | x] eqn:E;
    [| vm_compute in E; discriminate E].
  destruct (BottleConv_output_channels permissive 256 64 4 32 4 1 m E)
    as (w & Hw & Hc).
  exists m, w. auto.
Defined.

Lemma window_out_3_1 (h s : Z) : window_out h 3 s 1 = window_out h 1 s 0.
Proof. unfold window_out. do 2 f_equal. lia. Qed.

Lemma window_out_1_1_0 (h : Z) : window_out h 1 1 0 = h.
Proof. unfold window_out. rewrite Z.div_1_r. lia. Qed.

Lemma ShortCut_spatial (i o e s h : Z) :
  spatial (LBlock class_ShortCut
             (if needs_projection i o e s then projection i o e s else [])) h
  = window_out h 1 s 0.
Proof.
  destruct (needs_projection i o e s) eqn:E.
  - reflexivity.
  - apply needs_projection_false in E as [-> _].
    rewrite window_out_1_1_0. reflexivity.
Qed.

(** X7: in every residual block that was built ([BasicBlock],
    [BottleneckBlock], [PruneBasicBlock]) the attribute [block] is an [Add]
    of two models that bring a side of [h] to the same size, for every
    stride: the convolution path and the shortcut shrink the input alike,
    by the window rule with the operators' default stride 1 and padding
    0. *)
Theorem residual_branches_same_size (fw : Framework) (c : Call) (m : module) :
  is_residual c = true ->
  construct fw c = Ok m ->
  exists path shortcut,
    getattr m "block" = Some (LAdd [path; shortcut]) /\
    forall h, spatial path h = spatial shortcut h.
Proof.
  intros Hc H.
  apply (agree_Ok_inv _ _ _ (construct_agrees fw c)) in H.
  destruct c; try discriminate Hc; cbn [construct] in H.
  - rewrite BasicBlock_permissive, BasicConv_permissive, ShortCut_permissive in H.
    injection H as <-. eexists _, _. split; [reflexivity |].
    intros h. rewrite ShortCut_spatial.
    cbn. rewrite window_out_same. apply window_out_3_1.
  - rewrite BottleneckBlock_permissive, BottleConv_permissive,
      ShortCut_permissive in H.
    destruct (bottle_width _ _ _) as [w | x]; [| discriminate H].
    injection H as <-. eexists _, _. split; [reflexivity |].
    intros h. rewrite ShortCut_spatial.
    cbn. rewrite !window_out_1_1_0. apply window_out_3_1.
  - rewrite PruneBasicBlock_permissive, PruneBasicConv_permissive,
      ShortCut_permissive in H.
    injection H as <-. eexists _, _. split; [reflexivity |].
    intros h. rewrite ShortCut_spatial.
    cbn. rewrite window_out_same. apply window_out_3_1.
Qed.

Lemma residual_branches_same_size_witness :
  exists m path shortcut,
    BasicBlock permissive 64 128 1 64 2 = Ok m /\
    getattr m "block" = Some (LAdd [path; shortcut]) /\
    forall h, spatial path h = spatial shortcut h.
Proof.
  destruct (BasicBlock permissive 64 128 1 64 2) as [m | x] eqn:E;
    [| vm_compute in E; discriminate E].
  destruct (residual_branches_same_size permissive
              (new_BasicBlock 64 128 1 64 2) m eq_refl E)
    as (path & shortcut & Hg & Hs).
  exists m, path, shortcut. auto.
Defined.

(* ===================================================================== *)
(** * The [xt] package body                                               *)
(* ===================================================================== *)

(** ** Loading submodules *)

Lemma load_cons (n : string) (l : list string) (s : xt.state) :
  xt.load (n :: l) s = xt.load l (xt.load_one s n).
Proof. reflexivity. Qed.

Lemma load_one_trace (s : xt.state) (n : string) :
  xt.trace (xt.load_one s n) = xt.trace s.
Proof. unfold xt.load_one. case_decide; reflexivity. Qed.

Lemma load_trace (l : list string) (s : xt.state) :
  xt.trace (xt.load l s) = xt.trace s.
Proof.
  revert s. induction l as [| n l IH]; intros s; [reflexivity |].
  rewrite load_cons, IH. apply load_one_trace.
Qed.

Lemma load_one_modules (s : xt.state) (n k : string) :
  k ∈ xt.modules s -> k ∈ xt.modules (xt.load_one s n).
Proof. unfold xt.load_one. case_decide; cbn; set_solver. Qed.

(** A loaded submodule stays loaded. *)
Lemma load_modules (l : list string) (s : xt.state) (k : string) :
  k ∈ xt.modules s -> k ∈ xt.modules (xt.load l s).
Proof.
  revert s. induction l as [| n l IH]; intros s H; [exact H |].
  rewrite load_cons. apply IH, load_one_modules, H.
Qed.

Lemma load_own (n : string) (s : xt.state) : n ∈ xt.modules (xt.load [n] s).
Proof. cbn. unfold xt.load_one. case_decide; cbn; set_solver. Qed.

Lemma load_one_lookup (s : xt.state) (n k : string) :
  xt.namespace (xt.load_one s n) !! k = xt.namespace s !! k \/
  (k = n /\ (k ∉ xt.modules s) /\
   xt.namespace (xt.load_one s n) !! k = Some (xt.submodule k)).
Proof.
  unfold xt.load_one. case_decide as Hn; [left; reflexivity |]. cbn.
  destruct (decide (n = k)) as [<- | Hk].
  - right. rewrite lookup_insert_eq. auto.
  - left. apply lookup_insert_ne, Hk.
Qed.

(** Loading leaves a name alone or binds it, for the first time, to the
    submodule of that name. *)
Lemma load_lookup (l : list string) (s : xt.state) (k : string) :
  xt.namespace (xt.load l s) !! k = xt.namespace s !! k \/
  (k ∈ l /\ (k ∉ xt.modules s) /\
   xt.namespace (xt.load l s) !! k = Some (xt.submodule k)).
Proof.
  revert s. induction l as [| n l IH]; intros s; [left; reflexivity |].
  rewrite load_cons.
  destruct (IH (xt.load_one s n)) as [E | (Hin & Hnot & E)].
  - rewrite E. destruct (load_one_lookup s n k) as [E' | (-> & Hnot & E')].
    + left. exact E'.
    + right. split; [apply list_elem_of_here | auto].
  - right. split; [apply list_elem_of_further, Hin |].
    split; [| exact E]. intros Hk. apply Hnot, load_one_modules, Hk.
Qed.

Lemma load_lookup_notin (l : list string) (s : xt.state) (k : string) :
  k ∉ l -> xt.namespace (xt.load l s) !! k = xt.namespace s !! k.
Proof. intros H. destruct (load_lookup l s k) as [E | (Hin & _)]; tauto. Qed.

Lemma load_lookup_loaded (l : list string) (s : xt.state) (k : string) :
  k ∈ xt.modules s -> xt.namespace (xt.load l s) !! k = xt.namespace s !! k.
Proof. intros H. destruct (load_lookup l s k) as [E | (_ & Hnot & _)]; tauto. Qed.

(** ** The statements of the body, one by one *)

Lemma kept_refl (l : list string) (k : string) (s : xt.state) :
  xt.kept_or_loaded l k s s.
Proof. left. reflexivity. Qed.

Lemma kept_trans (l : list string) (k : string) (s1 s2 s3 : xt.state) :
  xt.kept_or_loaded l k s1 s2 -> xt.kept_or_loaded l k s2 s3 ->
  xt.kept_or_loaded l k s1 s3.
Proof.
  unfold xt.kept_or_loaded.
  intros [E1 | [I1 E1]] [E2 | [I2 E2]]; rewrite ?E2, ?E1; auto.
Qed.

Lemma bind_inv {A B : Type} (m : xt.M A) (k : A -> xt.M B)
    (s s' : xt.state) (r : xt.completion B) :
  (m ≫= k) s = (r, s') ->
  (exists a s1, m s = (xt.completes a, s1) /\ k a s1 = (r, s')) \/
  (exists e, m s = (xt.raises e, s') /\ r = xt.raises e).
Proof.
  unfold mbind, xt.M_bind. destruct (m s) as [[a | e] s1].
  - intros H. left. eauto.
  - intros [= <- <-]. right. eauto.
Qed.

(** [name = v] binds [name] and nothing else. *)
Lemma assign_spec (name : string) (v : xt.value) (s s' : xt.state)
    (r : xt.completion unit) :
  xt.assign name v s = (r, s') ->
  r = xt.completes tt /\
  xt.namespace s' !! name = Some v /\
  (forall k, k <> name -> xt.namespace s' !! k = xt.namespace s !! k) /\
  xt.modules s' = xt.modules s /\ xt.trace s' = xt.trace s.
Proof.
  unfold xt.assign. intros [= <- <-]. cbn.
  split; [reflexivity |]. split; [apply lookup_insert_eq |].
  split; [| auto]. intros k Hk. apply lookup_insert_ne. congruence.
Qed.

(** A from-import that completes has bound its alias and loaded its
    module. *)
Lemma import_completes (w : xt.World) (m : xt.modpath) (name alias : string)
    (s s' : xt.state) :
  xt.import_from_as w m name alias s = (xt.completes tt, s') ->
  xt.finished (xt.exec w m) = true /\ xt.provides w m name = true /\
  xt.namespace s' !! alias = Some (xt.member m name) /\
  xt.trace s' = xt.trace s ++ [xt.import_of m name] /\
  (forall k, k ∈ xt.own m -> k ∈ xt.modules s').
Proof.
  unfold xt.import_from_as. cbn zeta.
  destruct (xt.finished (xt.exec w m)); [| discriminate].
  destruct (xt.provides w m name); [| discriminate].
  intros [= <-]. cbn.
  split; [reflexivity |]. split; [reflexivity |].
  split; [apply lookup_insert_eq |].
  split; [rewrite !load_trace; reflexivity |].
  destruct m as [n | p]; cbn [xt.own]; intros k Hk.
  - apply list_elem_of_singleton in Hk as ->. apply load_own.
  - apply elem_of_nil in Hk as [].
Qed.

(** A from-import that raises has logged nothing. *)
Lemma import_raises (w : xt.World) (m : xt.modpath) (name alias : string)
    (s s' : xt.state) (e : xt.event) :
  xt.import_from_as w m name alias s = (xt.raises e, s') ->
  e = xt.import_of m name /\ xt.trace s' = xt.trace s /\
  xt.finished (xt.exec w m) && xt.provides w m name = false.
Proof.
  unfold xt.import_from_as. cbn zeta.
  destruct (xt.finished (xt.exec w m)).
  - destruct (xt.provides w m name); [discriminate |].
    intros [= <- <-]. rewrite !load_trace. auto.
  - intros [= <- <-]. rewrite load_trace. auto.
Qed.

(** Whatever a from-import does, a loaded submodule stays loaded, and a
    name other than the alias keeps its binding unless the import loads a
    submodule of that name for the first time. *)
Lemma import_frame (w : xt.World) (m : xt.modpath) (name alias : string)
    (s s' : xt.state) (r : xt.completion unit) :
  xt.import_from_as w m name alias s = (r, s') ->
  (forall k, k ∈ xt.modules s -> k ∈ xt.modules s') /\
  (forall k, k <> alias ->
     xt.namespace s' !! k = xt.namespace s !! k \/
     ((k ∉ xt.modules s) /\ (k ∈ xt.imported (xt.exec w m) ++ xt.own m) /\
      xt.namespace s' !! k = Some (xt.submodule k))).
Proof.
  unfold xt.import_from_as. cbn zeta. intros H.
  assert (Hload : forall k,
    xt.namespace (xt.load (xt.own m) (xt.load (xt.imported (xt.exec w m)) s)) !! k
      = xt.namespace s !! k \/
    ((k ∉ xt.modules s) /\ (k ∈ xt.imported (xt.exec w m) ++ xt.own m) /\
     xt.namespace (xt.load (xt.own m) (xt.load (xt.imported (xt.exec w m)) s)) !! k
       = Some (xt.submodule k))).
  { intros k. rewrite elem_of_app.
    destruct (load_lookup (xt.own m) (xt.load (xt.imported (xt.exec w m)) s) k)
      as [E | (Hin & Hnot & E)].
    - rewrite E.
      destruct (load_lookup (xt.imported (xt.exec w m)) s k)
        as [E' | (Hin' & Hnot' & E')]; [left; exact E' | right; auto].
    - right. split; [| auto]. intros Hk. apply Hnot, load_modules, Hk. }
  destruct (xt.finished (xt.exec w m)).
  - destruct (xt.provides w m name); injection H as <- <-; cbn.
    + split; [intros k Hk; apply load_modules, load_modules, Hk |].
      intros k Hk. rewrite lookup_insert_ne by congruence. apply Hload.
    + split; [intros k Hk; apply load_modules, load_modules, Hk |].
      intros k _. apply Hload.
  - injection H as <- <-.
    split; [intros k Hk; apply load_modules, Hk |].
    intros k _. rewrite elem_of_app.
    destruct (load_lookup (xt.imported (xt.exec w m)) s k)
      as [E' | (Hin' & Hnot' & E')]; [left; exact E' | right; auto].
Qed.

(** The call of a bound name. *)
Lemma call_spec (w : xt.World) (name : string) (f : xt.value)
    (s s' : xt.state) (r : xt.completion unit) :
  xt.namespace s !! name = Some f ->
  xt.call w name s = (r, s') ->
  (r = xt.completes tt /\ xt.finished (xt.run w f) = true /\
   xt.trace s' = xt.trace s ++ [xt.call_of f]
   \/
   r = xt.raises (xt.call_of f) /\ xt.finished (xt.run w f) = false /\
   xt.trace s' = xt.trace s) /\
  (forall k, k ∈ xt.modules s -> k ∈ xt.modules s') /\
  (forall k,
     xt.namespace s' !! k = xt.namespace s !! k \/
     ((k ∉ xt.modules s) /\ (k ∈ xt.imported (xt.run w f)) /\
      xt.namespace s' !! k = Some (xt.submodule k))).
Proof.
  intros Hf. unfold xt.call. rewrite Hf. cbn zeta.
  destruct (xt.finished (xt.run w f)); intros [= <- <-]; cbn;
    rewrite ?load_trace.
  - split; [left; auto |].
    split; [intros k Hk; apply load_modules, Hk |].
    intros k. destruct (load_lookup (xt.imported (xt.run w f)) s k) as [E | E];
      [left; exact E | right; tauto].
  - split; [right; auto |].
    split; [intros k Hk; apply load_modules, Hk |].
    intros k. destruct (load_lookup (xt.imported (xt.run w f)) s k) as [E | E];
      [left; exact E | right; tauto].
Qed.


Lemma import_kept (l : list string) (w : xt.World) (m : xt.modpath)
    (name alias k : string) (s s' : xt.state) (r : xt.completion unit) :
  xt.import_from_as w m name alias s = (r, s') ->
  k <> alias -> k ∉ xt.own m ->
  (k ∈ xt.imported (xt.exec w m) -> k ∈ l) ->
  xt.kept_or_loaded l k s s'.
Proof.
  intros H Hne Hown Hl'. destruct (import_frame _ _ _ _ _ _ _ H) as [_ Hl].
  unfold xt.kept_or_loaded. destruct (Hl k Hne) as [E | (_ & Hin & E)]; auto.
  apply elem_of_app in Hin as [Hin | Hin]; [auto | contradiction].
Qed.

Lemma assign_kept (l : list string) (name k : string) (v : xt.value)
    (s s' : xt.state) (r : xt.completion unit) :
  xt.assign name v s = (r, s') -> k <> name -> xt.kept_or_loaded l k s s'.
Proof.
  intros H Hne. destruct (assign_spec _ _ _ _ _ H) as (_ & _ & Hl & _).
  left. apply Hl, Hne.
Qed.


Lemma call_kept (l : list string) (w : xt.World) (name k : string)
    (f : xt.value) (s s' : xt.state) (r : xt.completion unit) :
  xt.namespace s !! name = Some f ->
  xt.call w name s = (r, s') ->
  (k ∈ xt.imported (xt.run w f) -> k ∈ l) ->
  xt.kept_or_loaded l k s s'.
Proof.
  intros Hf H Hl'. destruct (call_spec _ _ _ _ _ _ Hf H) as (_ & _ & Hl).
  unfold xt.kept_or_loaded. destruct (Hl k) as [E | (_ & Hin & E)]; auto.
Qed.

(** ** The body as a chain of steps *)

(** Where a run of the body can stop: at one of the four imports, at the
    call, or at its end. *)
Lemma xt_init_inv (w : xt.World) (s0 s : xt.state) (r : xt.completion unit) :
  xt.__init__ w s0 = (r, s) ->
  exists sa,
    xt.assign "__doc__" (xt.str xt.docstring) s0 = (xt.completes tt, sa) /\
    ((exists e,
        xt.import_from_as w (xt.in_xt "train") "main" "train" sa
          = (xt.raises e, s) /\ r = xt.raises e) \/
     exists sb,
       xt.import_from_as w (xt.in_xt "train") "main" "train" sa
         = (xt.completes tt, sb) /\
       ((exists e,
           xt.import_from_as w (xt.in_xt "evaluate") "main" "evaluate" sb
             = (xt.raises e, s) /\ r = xt.raises e) \/
        exists sc,
          xt.import_from_as w (xt.in_xt "evaluate") "main" "evaluate" sb
            = (xt.completes tt, sc) /\
          ((exists e,
              xt.import_from_as w (xt.in_xt "benchmarking") "main"
                "benchmarking" sc = (xt.raises e, s) /\ r = xt.raises e) \/
           exists sd,
             xt.import_from_as w (xt.in_xt "benchmarking") "main"
               "benchmarking" sc = (xt.completes tt, sd) /\
             ((exists e,
                 xt.import_from_as w (xt.outside "zeus.common.util.register")
                   "register_xt_defaults" "register_xt_defaults" sd
                   = (xt.raises e, s) /\ r = xt.raises e) \/
              exists se,
                xt.import_from_as w (xt.outside "zeus.common.util.register")
                  "register_xt_defaults" "register_xt_defaults" sd
                  = (xt.completes tt, se) /\
                ((exists e,
                    xt.call w "register_xt_defaults" se = (xt.raises e, s) /\
                    r = xt.raises e) \/
                 exists sf sg,
                   xt.call w "register_xt_defaults" se = (xt.completes tt, sf) /\
                   xt.assign "__version__" (xt.str "0.2.0") sf
                     = (xt.completes tt, sg) /\
                   xt.assign "__ALL__"
                     (xt.names ["train"; "evaluate"; "benchmarking"]) sg
                     = (r, s)))))).
Proof.
  unfold xt.__init__. intros H.
  apply bind_inv in H as [([] & sa & Ha & H) | (e & Ha & _)];
    [| discriminate Ha].
  exists sa. split; [exact Ha |].
  apply bind_inv in H as [([] & sb & Hb & H) | (e & Hb & ->)]; [right | left; eauto].
  exists sb. split; [exact Hb |].
  apply bind_inv in H as [([] & sc & Hc & H) | (e & Hc & ->)]; [right | left; eauto].
  exists sc. split; [exact Hc |].
  apply bind_inv in H as [([] & sd & Hd & H) | (e & Hd & ->)]; [right | left; eauto].
  exists sd. split; [exact Hd |].
  apply bind_inv in H as [([] & se & He & H) | (e & He & ->)]; [right | left; eauto].
  exists se. split; [exact He |].
  apply bind_inv in H as [([] & sf & Hf & H) | (e & Hf & ->)]; [right | left; eauto].
  apply bind_inv in H as [([] & sg & Hg & H) | (e & Hg & _)];
    [| discriminate Hg].
  exists sf, sg. auto.
Qed.

Lemma bind_completes {A B : Type} (m : xt.M A) (k : A -> xt.M B)
    (s s1 : xt.state) (a : A) :
  m s = (xt.completes a, s1) -> (m ≫= k) s = k a s1.
Proof. intros H. unfold mbind, xt.M_bind. rewrite H. reflexivity. Qed.

Lemma import_runs (w : xt.World) (m : xt.modpath) (name alias : string)
    (s : xt.state) :
  xt.finished (xt.exec w m) = true -> xt.provides w m name = true ->
  exists s', xt.import_from_as w m name alias s = (xt.completes tt, s').
Proof.
  intros H1 H2. unfold xt.import_from_as. cbn zeta. rewrite H1, H2. eauto.
Qed.

Lemma call_runs (w : xt.World) (name : string) (f : xt.value) (s : xt.state) :
  xt.namespace s !! name = Some f -> xt.finished (xt.run w f) = true ->
  exists s', xt.call w name s = (xt.completes tt, s').
Proof.
  intros H1 H2. unfold xt.call. rewrite H1. cbn zeta. rewrite H2. eauto.
Qed.

Lemma assign_runs (name : string) (v : xt.value) (s : xt.state) :
  exists s', xt.assign name v s = (xt.completes tt, s').
Proof. unfold xt.assign. eauto. Qed.

Lemma xt_init_ready (w : xt.World) (s0 s : xt.state) :
  xt.__init__ w s0 = (xt.completes tt, s) -> xt.ready w = true.
Proof.
  unfold xt.ready. rewrite !andb_true_iff. intros H.
  destruct (xt_init_inv _ _ _ _ H) as (sa & _ & [(e & _ & [=]) | (sb & Hb & H1)]).
  destruct H1 as [(e & _ & [=]) | (sc & Hc & H1)].
  destruct H1 as [(e & _ & [=]) | (sd & Hd & H1)].
  destruct H1 as [(e & _ & [=]) | (se & He & H1)].
  destruct H1 as [(e & _ & [=]) | (sf & sg & Hf & _)].
  destruct (import_completes _ _ _ _ _ _ Hb) as (F1 & P1 & _).
  destruct (import_completes _ _ _ _ _ _ Hc) as (F2 & P2 & _).
  destruct (import_completes _ _ _ _ _ _ Hd) as (F3 & P3 & _).
  destruct (import_completes _ _ _ _ _ _ He) as (F4 & P4 & L4 & _).
  destruct (call_spec _ _ _ _ _ _ L4 Hf) as ([(_ & F5 & _) | ([=] & _)] & _).
  auto 10.
Qed.

Lemma xt_init_runs (w : xt.World) (s0 : xt.state) :
  xt.ready w = true -> exists s, xt.__init__ w s0 = (xt.completes tt, s).
Proof.
  unfold xt.ready. rewrite !andb_true_iff.
  intros [[[[[[[[F1 P1] F2] P2] F3] P3] F4] P4] F5].
  unfold xt.__init__.
  destruct (assign_runs "__doc__" (xt.str xt.docstring) s0) as [sa Ha].
  rewrite (bind_completes _ _ _ _ _ Ha).
  destruct (import_runs w (xt.in_xt "train") "main" "train" sa F1 P1) as [sb Hb].
  rewrite (bind_completes _ _ _ _ _ Hb).
  destruct (import_runs w (xt.in_xt "evaluate") "main" "evaluate" sb F2 P2)
    as [sc Hc].
  rewrite (bind_completes _ _ _ _ _ Hc).
  destruct (import_runs w (xt.in_xt "benchmarking") "main" "benchmarking" sc
              F3 P3) as [sd Hd].
  rewrite (bind_completes _ _ _ _ _ Hd).
  destruct (import_runs w (xt.outside "zeus.common.util.register")
              "register_xt_defaults" "register_xt_defaults" sd F4 P4)
    as [se He].
  rewrite (bind_completes _ _ _ _ _ He).
  destruct (import_completes _ _ _ _ _ _ He) as (_ & _ & L4 & _).
  destruct (call_runs w "register_xt_defaults" _ se L4 F5) as [sf Hf].
  rewrite (bind_completes _ _ _ _ _ Hf).
  destruct (assign_runs "__version__" (xt.str "0.2.0") sf) as [sg Hg].
  rewrite (bind_completes _ _ _ _ _ Hg).
  apply assign_runs.
Qed.

(** X8: the body of [xt/__init__.py] runs to its end exactly when its four
    imports succeed and [register_xt_defaults()] returns. *)
Theorem xt_init_completes_iff (w : xt.World) (s0 : xt.state) :
  (exists s, xt.__init__ w s0 = (xt.completes tt, s)) <-> xt.ready w = true.
Proof.
  split.
  - intros [s H]. exact (xt_init_ready _ _ _ H).
  - apply xt_init_runs.
Qed.

(** ** What the body leaves as it was *)

Ltac loads_side :=
  first
    [ assumption
    | solve [cbn [xt.own]; rewrite ?list_elem_of_singleton, ?elem_of_nil;
             solve [assumption | tauto]]
    | solve [unfold xt.loads, xt.register_xt_defaults;
             rewrite !elem_of_app; tauto] ].

(** After the docstring is bound, a name the body does not bind keeps its
    binding, unless code the body runs loads the submodule of that name.
    The body binds [__version__] and [__ALL__] only after everything that
    can raise. *)
Lemma xt_init_kept_after_doc (w : xt.World) (s0 s : xt.state)
    (r : xt.completion unit) :
  xt.__init__ w s0 = (r, s) ->
  exists sa,
    xt.assign "__doc__" (xt.str xt.docstring) s0 = (xt.completes tt, sa) /\
    forall k,
      k ∉ ["train"; "evaluate"; "benchmarking"; "register_xt_defaults"] ->
      (exists e, r = xt.raises e) \/ k ∉ ["__version__"; "__ALL__"] ->
      xt.kept_or_loaded (xt.loads w) k sa s.
Proof.
  intros H.
  destruct (xt_init_inv _ _ _ _ H) as (sa & Ha & H1).
  exists sa. split; [exact Ha |]. intros k Hk Hr.
  rewrite !not_elem_of_cons in Hk. destruct Hk as (K1 & K2 & K3 & K4 & _).
  destruct H1 as [(e & Hb & _) | (sb & Hb & H1)];
    [apply (import_kept _ _ _ _ _ _ _ _ _ Hb); loads_side |].
  apply (kept_trans _ _ _ sb);
    [apply (import_kept _ _ _ _ _ _ _ _ _ Hb); loads_side |].
  destruct H1 as [(e & Hc & _) | (sc & Hc & H1)];
    [apply (import_kept _ _ _ _ _ _ _ _ _ Hc); loads_side |].
  apply (kept_trans _ _ _ sc);
    [apply (import_kept _ _ _ _ _ _ _ _ _ Hc); loads_side |].
  destruct H1 as [(e & Hd & _) | (sd & Hd & H1)];
    [apply (import_kept _ _ _ _ _ _ _ _ _ Hd); loads_side |].
  apply (kept_trans _ _ _ sd);
    [apply (import_kept _ _ _ _ _ _ _ _ _ Hd); loads_side |].
  destruct H1 as [(e & He & _) | (se & He & H1)];
    [apply (import_kept _ _ _ _ _ _ _ _ _ He); loads_side |].
  apply (kept_trans _ _ _ se);
    [apply (import_kept _ _ _ _ _ _ _ _ _ He); loads_side |].
  destruct (import_completes _ _ _ _ _ _ He) as (_ & _ & L4 & _).
  destruct H1 as [(e & Hf & _) | (sf & sg & Hf & Hg & Hh)];
    [apply (call_kept _ _ _ _ _ _ _ _ L4 Hf); loads_side |].
  apply (kept_trans _ _ _ sf);
    [apply (call_kept _ _ _ _ _ _ _ _ L4 Hf); loads_side |].
  destruct (assign_spec _ _ _ _ _ Hh) as (-> & _).
  destruct Hr as [[e [=]] | Hr].
  rewrite !not_elem_of_cons in Hr. destruct Hr as (K6 & K7 & _).
  apply (kept_trans _ _ _ sg); [apply (assign_kept _ _ _ _ _ _ _ Hg K6) |].
  apply (assign_kept _ _ _ _ _ _ _ Hh K7).
Qed.

Lemma xt_init_kept (w : xt.World) (s0 s : xt.state) (r : xt.completion unit)
    (k : string) :
  xt.__init__ w s0 = (r, s) ->
  k ∉ ["train"; "evaluate"; "benchmarking"; "register_xt_defaults"; "__doc__"] ->
  (exists e, r = xt.raises e) \/ k ∉ ["__version__"; "__ALL__"] ->
  xt.kept_or_loaded (xt.loads w) k s0 s.
Proof.
  intros H Hk Hr. destruct (xt_init_kept_after_doc _ _ _ _ H) as (sa & Ha & Hkept).
  rewrite !not_elem_of_cons in Hk. destruct Hk as (K1 & K2 & K3 & K4 & K5 & _).
  apply (kept_trans _ _ _ sa); [apply (assign_kept _ _ _ _ _ _ _ Ha K5) |].
  apply Hkept; [| exact Hr]. rewrite !not_elem_of_cons, elem_of_nil. tauto.
Qed.


(** ** What the body has done when it completes *)




(** ** Loaded submodules are bound *)









(** ** Where the body raises *)

Lemma xt_init_raised_at (w : xt.World) (s0 s : xt.state) (e : xt.event) :
  xt.__init__ w s0 = (xt.raises e, s) ->
  exists k,
    (xt.imports ++ [xt.call_of xt.register_xt_defaults]) !! k = Some e /\
    xt.trace s = xt.trace s0 ++ take k xt.imports.
Proof.
  intros H.
  destruct (xt_init_inv _ _ _ _ H) as (sa & Ha & H1).
  destruct (assign_spec _ _ _ _ _ Ha) as (_ & _ & _ & _ & Ta).
  destruct H1 as [(e1 & Hb & [= ->]) | (sb & Hb & H1)].
  { destruct (import_raises _ _ _ _ _ _ _ Hb) as (-> & T & _).
    exists 0%nat. split; [reflexivity |]. rewrite T, Ta. cbn.
    rewrite app_nil_r. reflexivity. }
  destruct (import_completes _ _ _ _ _ _ Hb) as (_ & _ & _ & Tb & _).
  destruct H1 as [(e1 & Hc & [= ->]) | (sc & Hc & H1)].
  { destruct (import_raises _ _ _ _ _ _ _ Hc) as (-> & T & _).
    exists 1%nat. split; [reflexivity |]. rewrite T, Tb, Ta. reflexivity. }
  destruct (import_completes _ _ _ _ _ _ Hc) as (_ & _ & _ & Tc & _).
  destruct H1 as [(e1 & Hd & [= ->]) | (sd & Hd & H1)].
  { destruct (import_raises _ _ _ _ _ _ _ Hd) as (-> & T & _).
    exists 2%nat. split; [reflexivity |]. rewrite T, Tc, Tb, Ta. cbn.
    rewrite <- !app_assoc. reflexivity. }
  destruct (import_completes _ _ _ _ _ _ Hd) as (_ & _ & _ & Td & _).
  destruct H1 as [(e1 & He & [= ->]) | (se & He & H1)].
  { destruct (import_raises _ _ _ _ _ _ _ He) as (-> & T & _).
    exists 3%nat. split; [reflexivity |]. rewrite T, Td, Tc, Tb, Ta. cbn.
    rewrite <- !app_assoc. reflexivity. }
  destruct (import_completes _ _ _ _ _ _ He) as (_ & _ & L4 & Te & _).
  destruct H1 as [(e1 & Hf & [= ->]) | (sf & sg & _ & _ & Hh)].
  { destruct (call_spec _ _ _ _ _ _ L4 Hf) as ([([=] & _) | ([= ->] & _ & T)] & _).
    exists 4%nat. split; [reflexivity |]. rewrite T, Te, Td, Tc, Tb, Ta. cbn.
    rewrite <- !app_assoc. reflexivity. }
  destruct (assign_spec _ _ _ _ _ Hh) as ([=] & _).
Qed.

(** ** The package after its body *)






(** X11: when the body raises, it raises at one of its four imports or at
    the call of [register_xt_defaults], after exactly the imports before it
    completed in source order; [register_xt_defaults] has not returned, and
    neither [__version__] nor [__ALL__] has been assigned: each has the
    binding it had before, unless the code that ran loaded a submodule of
    [xt] of that name. *)
Theorem xt_init_raises (w : xt.World) (s0 s : xt.state) (e : xt.event) :
  xt.__init__ w s0 = (xt.raises e, s) ->
  (exists k,
      (xt.imports ++ [xt.call_of xt.register_xt_defaults]) !! k = Some e /\
      xt.trace s = xt.trace s0 ++ take k xt.imports) /\
  (xt.namespace s !! "__version__" = xt.namespace s0 !! "__version__" \/
   ("__version__" ∈ xt.loads w /\
    xt.namespace s !! "__version__" = Some (xt.submodule "__version__"))) /\
  (xt.namespace s !! "__ALL__" = xt.namespace s0 !! "__ALL__" \/
   ("__ALL__" ∈ xt.loads w /\
    xt.namespace s !! "__ALL__" = Some (xt.submodule "__ALL__"))).
Proof.
  intros H. split; [exact (xt_init_raised_at _ _ _ _ H) |].
  split; apply (xt_init_kept _ _ _ _ _ H); eauto;
    rewrite !not_elem_of_cons, elem_of_nil;
    repeat split; first [discriminate | tauto].
Qed.

Lemma xt_init_raises_witness :
  exists s e,
    xt.__init__
      {| xt.exec := fun m =>
           {| xt.imported := match m with
                             | xt.in_xt _ => ["util"]
                             | xt.outside _ => []
                             end;
              xt.finished := match m with
                             | xt.in_xt n => negb (String.eqb n "benchmarking")
                             | xt.outside _ => true
                             end |};
         xt.provides := fun _ _ => true;
         xt.run := fun _ => {| xt.imported := []; xt.finished := true |} |}
      {| xt.namespace := ∅; xt.modules := ∅; xt.trace := [] |}
      = (xt.raises e, s) /\
    e = xt.import_of (xt.in_xt "benchmarking") "main" /\
    xt.namespace s !! "__version__" = None.
Proof.
  match goal with
  | |- exists s e, xt.__init__ ?w ?s0 = _ /\ _ =>
      destruct (xt.__init__ w s0) as [[[] | e] s] eqn:E
  end.
  { exfalso. apply xt_init_ready in E. vm_compute in E. discriminate E. }
  exists s, e. split; [reflexivity |].
  destruct (xt_init_raises _ _ s e E) as ((k & Hk & Ht) & [Hv | [Hin _]] & _).
  - split; [| rewrite Hv; reflexivity].
    vm_compute in E. injection E as <- _. reflexivity.
  - exfalso. revert Hin. unfold xt.loads. cbn.
    rewrite !elem_of_cons, elem_of_nil. intuition discriminate.
Defined.
